(** * ReelDeal: the recommendation read path and the tag pipeline

    A shallow embedding of [src/app.py] ([fetch_poster], [recommend]) and of
    [src/data_updater.py] ([preprocess_data], [stem]), together with the
    library objects those functions work with: a pandas data frame, a
    FAISS flat inner-product index and a scikit-learn count vectorizer.

    Conventions.
    - A Python call either returns or raises: [result A].  Only subclasses
      of [Exception] are modelled ([exn]); that is what the handler in
      [recommend] catches.
    - [st.error] is the one user-interface effect of [recommend]; it is
      modelled by explicit state passing on a log of reported exceptions.
    - Network replies are an oracle: [requests.get] for movie [m] at
      attempt [i] is [http m i].
    - The 32-bit floats stored in the index are modelled by exact rationals
      ([Q]); rounding is not modelled. *)

From Stdlib Require Import String Ascii List ZArith QArith Bool Arith Lia.
From Stdlib Require Import Sorted Permutation FMapAVL FMapFacts OrderedTypeEx.
Import ListNotations.
Close Scope Q_scope.

Set Implicit Arguments.

(** ** Python results *)

Module Py.

Inductive exn : Type :=
| RuntimeError      (* faiss: a C++ exception surfaced by the wrapper *)
| IndexError        (* pandas: single positional indexer is out-of-bounds *)
| TypeError         (* e.g. 'int' object is not iterable *)
| AttributeError    (* e.g. 'int' object has no attribute 'replace' *)
| ValueError        (* e.g. sklearn: empty vocabulary *)
| OtherException (msg : string).

Inductive result (A : Type) : Type :=
| Ok (a : A)
| Raise (e : exn).
Arguments Ok {A} a.
Arguments Raise {A} e.

Definition bind {A B} (r : result A) (f : A -> result B) : result B :=
  match r with
  | Ok a => f a
  | Raise e => Raise e
  end.

(** [l[lo:hi]] for non-negative bounds. *)
Definition slice {A} (lo hi : nat) (l : list A) : list A :=
  skipn lo (firstn hi l).

(** A comprehension or [Series.apply] whose body may raise: the first
    raising element aborts the whole expression. *)
Fixpoint traverse {A B} (f : A -> result B) (l : list A) : result (list B) :=
  match l with
  | [] => Ok []
  | x :: r =>
      match f x with
      | Raise e => Raise e
      | Ok y => match traverse f r with
                | Raise e => Raise e
                | Ok ys => Ok (y :: ys)
                end
      end
  end.

(** *** [str] methods

    Text is a byte string; the character classes are the ASCII ones. *)

Definition is_space (c : ascii) : bool :=
  let n := N_of_ascii c in
  ((n =? 32) || ((9 <=? n) && (n <=? 13)) || ((28 <=? n) && (n <=? 31)))%N.

Definition flush (cur : string) (rest : list string) : list string :=
  if String.eqb cur "" then rest else cur :: rest.

(** [s.split()]: maximal runs of non-whitespace characters. *)
Fixpoint split_from (cur : string) (s : string) : list string :=
  match s with
  | EmptyString => flush cur []
  | String c r =>
      if is_space c then flush cur (split_from "" r)
      else split_from (cur ++ String c "")%string r
  end.

Definition split (s : string) : list string := split_from "" s.

(** [s.replace(" ", "")] *)
Fixpoint remove_spaces (s : string) : string :=
  match s with
  | EmptyString => EmptyString
  | String c r =>
      if Ascii.eqb c " " then remove_spaces r else String c (remove_spaces r)
  end.

Definition lower_char (c : ascii) : ascii :=
  let n := N_of_ascii c in
  if ((65 <=? n) && (n <=? 90))%N then ascii_of_N (n + 32) else c.

(** [s.lower()] *)
Fixpoint lower (s : string) : string :=
  match s with
  | EmptyString => EmptyString
  | String c r => String (lower_char c) (lower r)
  end.

(** [" ".join(l)] *)
Definition join (l : list string) : string := String.concat " " l.

(** Iterating a string yields its one-character substrings. *)
Fixpoint chars (s : string) : list string :=
  match s with
  | EmptyString => []
  | String c r => String c "" :: chars r
  end.

End Py.
Import Py.

Notation "x <- c ;; k" := (Py.bind c (fun x => k))
  (at level 61, c at next level, right associativity).

(** ** The loaded corpus: [movies_df]

    [pd.DataFrame(movies_dict)] keeps the index labels that the pickled
    dictionary carries, so a frame is a list of (label, row) in row order.
    Labels and row positions are different things: [.index] and boolean
    filtering speak of labels, [.iloc] of positions. *)

Module Pandas.

Record movie_row : Type := {
  movie_id : Z;
  title : string;
  tags : string
}.

Definition DataFrame := list (Z * movie_row).

(** [movies_df[movies_df['title'] == movie].index] *)
Definition title_index (df : DataFrame) (movie : string) : list Z :=
  map fst (filter (fun r => String.eqb (title (snd r)) movie) df).

(** [movies_df.iloc[idx]]: positions [-n .. n-1] are accepted, a negative
    one counts from the end; anything else is an [IndexError]. *)
Definition iloc (df : DataFrame) (idx : Z) : result movie_row :=
  let n := Z.of_nat (length df) in
  let pos := if (idx <? 0)%Z then (n + idx)%Z else idx in
  if ((0 <=? pos) && (pos <? n))%Z then
    match nth_error df (Z.to_nat pos) with
    | Some r => Ok (snd r)
    | None => Raise IndexError
    end
  else Raise IndexError.

End Pandas.
Import Pandas.

(** ** The similarity index

    [recommend] only calls two methods of the object it is given, so an
    index is a record of those two methods.  [search] returns the label row
    [indices[0]]; the distance row is never read by the caller. *)

Module Faiss.

Definition vec := list Q.

Record Index : Type := {
  reconstruct : Z -> result vec;
  search : vec -> nat -> result (list Z)
}.

(** *** [faiss.IndexFlatIP]

    The flat index is third-party code.  Its model follows the documented
    contract: exhaustive inner-product scoring of every stored vector,
    the [k] best labels by descending score, and the label [-1] in every
    slot for which no stored vector is left.  The library does not
    document in which order equal scores are reported, so that order is a
    parameter of the model. *)

Inductive TieOrder : Type := LowIdFirst | HighIdFirst.

Definition dot (x y : vec) : Q :=
  fold_right Qplus 0%Q (map (fun p => (fst p * snd p)%Q) (combine x y)).

Definition scored (xb : list vec) (q : vec) : list (Q * Z) :=
  combine (map (dot q) xb) (map Z.of_nat (seq 0 (length xb))).

Definition ranks_before (t : TieOrder) (a b : Q * Z) : bool :=
  match (fst a ?= fst b)%Q with
  | Gt => true
  | Lt => false
  | Eq => match t with
          | LowIdFirst => (snd a <=? snd b)%Z
          | HighIdFirst => (snd b <=? snd a)%Z
          end
  end.

Fixpoint insert_hit (t : TieOrder) (h : Q * Z) (l : list (Q * Z)) : list (Q * Z) :=
  match l with
  | [] => [h]
  | x :: r => if ranks_before t h x then h :: l else x :: insert_hit t h r
  end.

Definition rank_hits (t : TieOrder) (l : list (Q * Z)) : list (Q * Z) :=
  fold_right (insert_hit t) [] l.

(** The order [rank_hits] sorts by: best score first. *)
Definition score_no_less (a b : Q * Z) : Prop := (fst b <= fst a)%Q.

Definition flat_search (t : TieOrder) (xb : list vec) (q : vec) (k : nat)
  : list Z :=
  let best := firstn k (rank_hits t (scored xb q)) in
  map snd best ++ repeat (-1)%Z (k - length best).

(** [reconstruct(key)] throws unless [0 <= key < ntotal]. *)
Definition flat_reconstruct (xb : list vec) (key : Z) : result vec :=
  if ((0 <=? key) && (key <? Z.of_nat (length xb)))%Z then
    match nth_error xb (Z.to_nat key) with
    | Some v => Ok v
    | None => Raise RuntimeError
    end
  else Raise RuntimeError.

Definition IndexFlatIP (t : TieOrder) (xb : list vec) : Index :=
  {| reconstruct := flat_reconstruct xb;
     search := fun q k => Ok (flat_search t xb q k) |}.

End Faiss.
Import Faiss.

(** ** The vectorizer

    [sklearn.feature_extraction.text.CountVectorizer] is third-party code;
    the repository builds it with [max_features=5000, stop_words='english']
    and calls [fit_transform].  The model follows the documented behaviour
    of those settings: documents are lower-cased, tokens are the runs of
    two or more word characters, stop words are dropped, and with
    [max_features] set the vocabulary is made of the top [max_features]
    terms "ordered by term frequency across the corpus".  The English stop
    list itself is a table of the library and is a field of the record. *)

Module Sklearn.

Record CountVectorizer : Type := {
  max_features : nat;
  stop_words : list string
}.

(** A dictionary keyed by terms, as the vectorizer keeps while counting. *)
Module Counter := FMapAVL.Make String_as_OT.

(** [\w], on bytes: digits, letters, underscore, and the bytes of
    non-ASCII characters. *)
Definition is_word_char (c : ascii) : bool :=
  let n := N_of_ascii c in
  (((48 <=? n) && (n <=? 57)) || ((65 <=? n) && (n <=? 90))
   || ((97 <=? n) && (n <=? 122)) || (n =? 95) || (128 <=? n))%N.

(** Maximal runs of word characters. *)
Fixpoint word_runs (cur : string) (s : string) : list string :=
  match s with
  | EmptyString => flush cur []
  | String c r =>
      if is_word_char c then word_runs (cur ++ String c "")%string r
      else flush cur (word_runs "" r)
  end.

(** The default [token_pattern], [(?u)\b\w\w+\b]. *)
Definition tokenize (doc : string) : list string :=
  filter (fun w => 2 <=? String.length w) (word_runs "" doc).

Definition is_stop_word (cv : CountVectorizer) (w : string) : bool :=
  existsb (String.eqb w) (stop_words cv).

(** The analyzer: lower-case, tokenize, drop stop words. *)
Definition analyze (cv : CountVectorizer) (doc : string) : list string :=
  filter (fun w => negb (is_stop_word cv w)) (tokenize (lower doc)).

(** Every analysed token of the corpus, document after document. *)
Definition corpus_tokens (cv : CountVectorizer) (docs : list string)
  : list string :=
  flat_map (analyze cv) docs.

Definition count_of (m : Counter.t nat) (t : string) : nat :=
  match Counter.find t m with
  | Some n => n
  | None => 0
  end.

Definition count_terms (tokens : list string) : Counter.t nat :=
  fold_left (fun m t => Counter.add t (S (count_of m t)) m)
            tokens (Counter.empty nat).

(** Terms with their number of occurrences in the corpus, by descending
    count; equal counts keep the order of the sorted vocabulary. *)
Fixpoint insert_count (x : string * nat) (l : list (string * nat))
  : list (string * nat) :=
  match l with
  | [] => [x]
  | y :: r => if snd y <=? snd x then x :: l else y :: insert_count x r
  end.

Definition by_count (l : list (string * nat)) : list (string * nat) :=
  fold_right insert_count [] l.

Definition mark (terms : list (string * nat)) : Counter.t unit :=
  fold_left (fun s t => Counter.add (fst t) tt s) terms (Counter.empty unit).

(** [_limit_features] with [limit = max_features]: when there are more
    terms than the limit, a mask keeps the [limit] most frequent ones; the
    kept terms stay in sorted order. *)
Definition limit_features (limit : nat) (tfs : list (string * nat))
  : list string :=
  if limit <? length tfs then
    let kept := mark (firstn limit (by_count tfs)) in
    filter (fun t => Counter.mem t kept) (map fst tfs)
  else map fst tfs.

(** [fit]: the learned vocabulary, in column order.  An empty vocabulary
    is a [ValueError]. *)
Definition fit (cv : CountVectorizer) (docs : list string)
  : result (list string) :=
  let tfs := Counter.elements (count_terms (corpus_tokens cv docs)) in
  match limit_features (max_features cv) tfs with
  | [] => Raise ValueError
  | vocabulary => Ok vocabulary
  end.


Definition occurrences (t : string) (tokens : list string) : nat :=
  length (filter (String.eqb t) tokens).




End Sklearn.

(** ** [src/app.py] *)

Module App.

(** What one [requests.get(url, timeout=10)] followed by
    [raise_for_status()], [json()] and [data.get('poster_path')] comes to. *)
Inductive HttpReply : Type :=
| RequestException                    (* caught by the retry loop *)
| PosterPath (p : option string)      (* value of data.get('poster_path') *)
| Raises (e : exn).                   (* any other exception *)

Definition Http := Z -> nat -> HttpReply.

Definition poster_base : string := "https://image.tmdb.org/t/p/w500".

(** The body of [for i in range(5)], over the attempts still to run. *)
Fixpoint fetch_poster_attempts (http : Http) (movie_id : Z)
         (attempts : list nat) : result (option string) :=
  match attempts with
  | [] => Ok None
  | i :: rest =>
      match http movie_id i with
      | PosterPath (Some p) =>
          if String.eqb p "" then Ok None
          else Ok (Some (poster_base ++ p)%string)
      | PosterPath None => Ok None
      | RequestException =>
          if i <? 4 then fetch_poster_attempts http movie_id rest
          else Ok None
      | Raises e => Raise e
      end
  end.

Definition fetch_poster (http : Http) (movie_id : Z)
  : result (option string) :=
  fetch_poster_attempts http movie_id (seq 0 5).

Definition recommendations : Type := list string * list (option string).

(** [indices[0][1:k+1]] *)
Definition recommended_indices (k : nat) (hits : list Z) : list Z :=
  slice 1 (k + 1) hits.

(** The [for idx in recommended_indices] loop with its two accumulators. *)
Fixpoint collect (df : DataFrame) (http : Http) (idxs : list Z)
         (recommended_movies : list string)
         (recommended_posters : list (option string))
  : result recommendations :=
  match idxs with
  | [] => Ok (recommended_movies, recommended_posters)
  | idx :: rest =>
      row <- iloc df idx ;;
      poster <- fetch_poster http (movie_id row) ;;
      collect df http rest
              (recommended_movies ++ [title row])
              (recommended_posters ++ [poster])
  end.

(** The [try] block of [recommend]. *)
Definition recommend_try (movie : string) (df : DataFrame) (index : Index)
           (http : Http) (k : nat) : result recommendations :=
  match title_index df movie with
  | [] => Ok ([], [])
  | movie_index :: _ =>
      query_vector <- reconstruct index movie_index ;;
      hits <- search index query_vector (k + 1) ;;
      collect df http (recommended_indices k hits) [] []
  end.

(** [recommend]: the [try] block under [except Exception as e], which
    reports [e] through [st.error] and returns [[], []]. *)
Definition recommend (movie : string) (df : DataFrame) (index : Index)
           (http : Http) (k : nat) (log : list exn)
  : result recommendations * list exn :=
  match recommend_try movie df index http k with
  | Ok r => (Ok r, log)
  | Raise e => (Ok ([], []), log ++ [e])
  end.


End App.
Import App.

(** ** [src/data_updater.py]

    Records arrive from JSON, so a cell of the raw frame is a dynamically
    typed value. *)

Module Updater.

#[warnings="-register-all"]
Inductive pyval : Type :=
| PyNone
| PyNaN
| PyInt (z : Z)
| PyStr (s : string)
| PyList (l : list pyval).

(** One row of [pd.DataFrame(movies_data)]. *)
Record raw_movie : Type := {
  movie_id : pyval;
  title : pyval;
  overview : pyval;
  genres : pyval;
  keywords : pyval;
  cast : pyval;
  crew : pyval
}.

(** One row of [df[['movie_id', 'title', 'tags']]]. *)
Record tagged_movie : Type := {
  t_movie_id : pyval;
  t_title : pyval;
  t_tags : string
}.

(** The updater object: [self.ps] is the stemmer, of which only the
    method [stem] on one word is used; [self.cv] is the vectorizer. *)
Record MovieDataUpdater : Type := {
  ps : string -> string;
  cv : Sklearn.CountVectorizer
}.

(** [__init__], given the library's stemmer and its English stop list. *)
Definition init (porter : string -> string) (english : list string)
  : MovieDataUpdater :=
  {| ps := porter;
     cv := {| Sklearn.max_features := 5000;
              Sklearn.stop_words := english |} |}.

(** *** [preprocess_data] *)

Definition isna (v : pyval) : bool :=
  match v with
  | PyNone | PyNaN => true
  | _ => false
  end.

Definition has_na (r : raw_movie) : bool :=
  isna (movie_id r) || isna (title r) || isna (overview r)
  || isna (genres r) || isna (keywords r) || isna (cast r) || isna (crew r).

(** [df.dropna()]: rows with a missing cell go, labels stay. *)
Definition dropna (df : list (Z * raw_movie)) : list (Z * raw_movie) :=
  filter (fun r => negb (has_na (snd r))) df.

(** [lambda x: x.split() if isinstance(x, str) else []] *)
Definition overview_tokens (x : pyval) : list string :=
  match x with
  | PyStr s => split s
  | _ => []
  end.

(** [i.replace(" ", "")] on an element of unknown type. *)
Definition replace_spaces (i : pyval) : result string :=
  match i with
  | PyStr s => Ok (remove_spaces s)
  | _ => Raise AttributeError
  end.

(** [lambda x: [i.replace(" ", "") for i in x]] *)
Definition strip_names (x : pyval) : result (list string) :=
  match x with
  | PyList l => traverse replace_spaces l
  | PyStr s => Ok (map remove_spaces (chars s))
  | PyNone | PyNaN | PyInt _ => Raise TypeError
  end.

(** [stem]: each whitespace-delimited word through [self.ps.stem]. *)
Definition stem (self : MovieDataUpdater) (text : string) : string :=
  join (map (ps self) (split text)).

(** The [tags] cell of one row from its five token lists. *)
Definition make_tags (self : MovieDataUpdater)
           (ov g kw c cr : list string) : string :=
  stem self (lower (join (ov ++ g ++ kw ++ c ++ cr))).

(** Rows and the four columns computed for them, put together again. *)
Fixpoint assemble (self : MovieDataUpdater) (df : list (Z * raw_movie))
         (g kw c cr : list (list string)) : list (Z * tagged_movie) :=
  match df, g, kw, c, cr with
  | (label, r) :: df', g1 :: g', kw1 :: kw', c1 :: c', cr1 :: cr' =>
      (label,
       {| t_movie_id := movie_id r;
          t_title := title r;
          t_tags := make_tags self (overview_tokens (overview r))
                              g1 kw1 c1 cr1 |})
        :: assemble self df' g' kw' c' cr'
  | _, _, _, _, _ => []
  end.

(** The passes of [preprocess_data] over a frame that has its columns:
    they run one after the other, each over all rows, so the first column
    with a bad cell decides which exception is raised. *)
Definition process_columns (self : MovieDataUpdater)
           (df : list (Z * raw_movie)) : result (list (Z * tagged_movie)) :=
  let df := dropna df in
  g <- traverse (fun r => strip_names (genres (snd r))) df ;;
  kw <- traverse (fun r => strip_names (keywords (snd r))) df ;;
  c <- traverse (fun r => strip_names (cast (snd r))) df ;;
  cr <- traverse (fun r => strip_names (crew (snd r))) df ;;
  Ok (assemble self df g kw c cr).

(** [preprocess_data].  Its argument is [pd.DataFrame(movies_data)]: made
    from no record at all, that frame has no column, [dropna] leaves it
    as it is and [df['overview']] is a [KeyError].  A frame made from
    records keeps its columns even when [dropna] removes every row. *)
Definition preprocess_data (self : MovieDataUpdater)
           (df : list (Z * raw_movie)) : result (list (Z * tagged_movie)) :=
  match df with
  | [] => Raise (OtherException "KeyError")
  | _ :: _ => process_columns self df
  end.

End Updater.

(** ** Sample corpora

    Three movies with distinct titles and distinct unit vectors (the count
    rows (1,0), (3,4) and (0,1) after normalisation); a corpus in which the
    same movie was ingested twice; and a frame that is one row longer than
    its index.  The network is down in all runs: every request fails. *)

Module Samples.

Definition row (id : Z) (t : string) : movie_row :=
  {| Pandas.movie_id := id; Pandas.title := t; Pandas.tags := "" |}.

Definition offline : Http := fun _ _ => RequestException.

Definition df3 : DataFrame :=
  [(0%Z, row 11 "A"); (1%Z, row 12 "B"); (2%Z, row 13 "C")].

Definition xb3 : list vec :=
  [[1 # 1; 0 # 1]; [3 # 5; 4 # 5]; [0 # 1; 1 # 1]]%Q.

Definition df_twice : DataFrame :=
  [(0%Z, row 21 "A"); (1%Z, row 21 "A"); (2%Z, row 22 "B")].

Definition xb_twice : list vec :=
  [[1 # 1; 0 # 1]; [1 # 1; 0 # 1]; [0 # 1; 1 # 1]]%Q.

Definition df_pair : DataFrame :=
  [(0%Z, row 31 "A"); (1%Z, row 32 "B")].


Definition xb_short : list vec := [[1 # 1]]%Q.






End Samples.

(** ** Vocabulary of the statements about [preprocess_data] *)

Module UpdaterSpec.
Import Updater.




Definition is_str (v : pyval) : bool :=
  match v with
  | PyStr _ => true
  | _ => false
  end.



(** A few entries of the English stop list, and an updater whose stemmer
    leaves words as they are. *)
Definition some_stop_words : list string :=
  ["the"; "and"; "of"; "in"; "to"; "is"]%string.

Definition identity_stemmer : MovieDataUpdater :=
  init (fun w => w) some_stop_words.

Definition action_movie (ov : pyval) : raw_movie :=
  {| movie_id := PyInt 7; title := PyStr "Heat"; overview := ov;
     genres := PyList [PyStr "Action"]; keywords := PyList [];
     cast := PyList [PyStr "Al Pacino"]; crew := PyList [] |}.


End UpdaterSpec.

(** ** The rest of [src/app.py]: waiting between attempts, and the page *)

Module AppUi.

(** [fetch_poster] once more, now with the arguments of its [time.sleep]
    calls, in seconds, in the order they are made. *)
Fixpoint fetch_poster_timed_attempts (http : Http) (movie_id : Z)
         (attempts : list nat) : result (option string) * list nat :=
  match attempts with
  | [] => (Ok None, [])
  | i :: rest =>
      match http movie_id i with
      | PosterPath (Some p) =>
          (if String.eqb p "" then Ok None
           else Ok (Some (poster_base ++ p)%string), [])
      | PosterPath None => (Ok None, [])
      | RequestException =>
          if i <? 4 then
            let (r, waits) := fetch_poster_timed_attempts http movie_id rest in
            (r, 2 ^ i :: waits)
          else (Ok None, [])
      | Raises e => (Raise e, [])
      end
  end.

Definition fetch_poster_timed (http : Http) (movie_id : Z)
  : result (option string) * list nat :=
  fetch_poster_timed_attempts http movie_id (seq 0 5).

(** What [main] puts on the page once the button is pressed. *)
Inductive ui_event : Type :=
| StSuccess
| StWrite
| StMarkdown (text : string)
| StImage (url : string)
| StInfo
| StWarning.

(** [l[idx]] for a non-negative index. *)
Definition item {A : Type} (l : list A) (idx : nat) : result A :=
  match nth_error l idx with
  | Some x => Ok x
  | None => Raise IndexError
  end.

(** [if posters[idx]]: [None] and the empty string are false. *)
Definition poster_event (poster : option string) : ui_event :=
  match poster with
  | Some url => if String.eqb url "" then StInfo else StImage url
  | None => StInfo
  end.

(** The body of [for idx, col in enumerate(cols)], over the columns still
    to fill: what was shown, and how the loop ended. *)
Fixpoint show_cards (names : list string) (posters : list (option string))
         (idxs : list nat) : list ui_event * result unit :=
  match idxs with
  | [] => ([], Ok tt)
  | idx :: rest =>
      match item names idx with
      | Raise e => ([], Raise e)
      | Ok name =>
          let shown := StMarkdown ("**" ++ name ++ "**")%string in
          match item posters idx with
          | Raise e => ([shown], Raise e)
          | Ok poster =>
              let (events, outcome) := show_cards names posters rest in
              (shown :: poster_event poster :: events, outcome)
          end
      end
  end.

(** [if names: ... else: st.warning(...)], with [cols = st.columns(5)]. *)
Definition show_recommendations (names : list string)
           (posters : list (option string)) : list ui_event * result unit :=
  match names with
  | [] => ([StWarning], Ok tt)
  | _ :: _ =>
      let (events, outcome) := show_cards names posters (seq 0 5) in
      (StSuccess :: StWrite :: events, outcome)
  end.

(** The [if recommend_button:] block of [main]: [recommend] with its default
    [k = 5], then the page. *)
Definition on_recommend_button (selected_movie : string) (movies : DataFrame)
           (faiss_index : Index) (http : Http) (log : list exn)
  : list exn * list ui_event * result unit :=
  match recommend selected_movie movies faiss_index http 5 log with
  | (Ok (names, posters), log') =>
      let (events, outcome) := show_recommendations names posters in
      (log', events, outcome)
  | (Raise e, log') => (log', [], Raise e)
  end.

(** Frames whose index labels are the row positions [0 .. n-1]. *)
Definition labels_are_positions (df : DataFrame) : Prop :=
  map fst df = map Z.of_nat (seq 0 (length df)).

Definition titles (df : DataFrame) : list string :=
  map (fun r => Pandas.title (snd r)) df.

(** A network that fails or answers, but raises nothing else. *)
Definition no_stray_exception (http : Http) : Prop :=
  forall (movie_id : Z) (i : nat) (e : exn), http movie_id i <> Raises e.

End AppUi.

(** ** Words of a tag string *)

Module Words.

(** A word: not empty, and free of whitespace. *)
Definition no_space (w : string) : bool :=
  forallb (fun c => negb (is_space c)) (list_ascii_of_string w).

Definition is_word (w : string) : bool :=
  negb (String.eqb w "") && no_space w.

(** Text within ASCII.  There the byte classes of this file are the
    classes Python and the vectorizer work with: whitespace for
    [str.split], capitals for [str.lower], word characters for the token
    pattern. *)
Definition is_ascii (s : string) : bool :=
  forallb (fun c => (N_of_ascii c <? 128)%N) (list_ascii_of_string s).

(** A stemmer that maps ASCII words to ASCII words. *)
Definition stems_ascii_words (porter : string -> string) : Prop :=
  forall w, is_ascii w = true -> is_word w = true ->
            is_ascii (porter w) = true /\ is_word (porter w) = true.

(** The first step of [build_faiss_index]: the vocabulary that
    [self.cv.fit_transform(df['tags'])] learns. *)
Definition build_vocabulary (self : Updater.MovieDataUpdater)
           (df : list (Z * Updater.tagged_movie)) : result (list string) :=
  Sklearn.fit (Updater.cv self) (map (fun r => Updater.t_tags (snd r)) df).

(** Frames of any row type whose labels are the row positions. *)
Definition numbered (A : Type) (df : list (Z * A)) : Prop :=
  map fst df = map Z.of_nat (seq 0 (length df)).

End Words.

(** ** The rest of [src/data_updater.py]: fetching from TMDb

    What comes back from [response.json()] is a JSON value read as Python
    data; numbers are the integers.  The operations below are the Python
    ones the source applies to such data, with the exception each raises
    on data of the wrong shape ([KeyError] is [OtherException "KeyError"]).
    The four kinds of URL the source builds are the four kinds of
    request; [session.get] for a request at a given attempt is the oracle
    [net]. *)

Module Tmdb.

#[warnings="-register-all"]
Inductive json : Type :=
| JNull
| JBool (b : bool)
| JNum (n : Z)
| JStr (s : string)
| JArr (items : list json)
| JObj (fields : list (string * json)).

Definition KeyError : exn := OtherException "KeyError".

(** [bool(x)] *)
Definition truthy (x : json) : bool :=
  match x with
  | JNull => false
  | JBool b => b
  | JNum n => negb (n =? 0)%Z
  | JStr s => negb (String.eqb s "")
  | JArr items => match items with [] => false | _ => true end
  | JObj fields => match fields with [] => false | _ => true end
  end.

(** The value stored under a key of a dict (keys are distinct). *)
Fixpoint lookup (key : string) (fields : list (string * json))
  : option json :=
  match fields with
  | [] => None
  | (k, v) :: rest => if String.eqb k key then Some v else lookup key rest
  end.

(** [x.get(key, default)] *)
Definition get (x : json) (key : string) (default : json) : result json :=
  match x with
  | JObj fields =>
      match lookup key fields with
      | Some v => Ok v
      | None => Ok default
      end
  | _ => Raise AttributeError
  end.

(** [x[key]] for a string key. *)
Definition subscript (x : json) (key : string) : result json :=
  match x with
  | JObj fields =>
      match lookup key fields with
      | Some v => Ok v
      | None => Raise KeyError
      end
  | _ => Raise TypeError
  end.

Fixpoint is_prefix (p s : string) : bool :=
  match p, s with
  | EmptyString, _ => true
  | String a p', String b s' => Ascii.eqb a b && is_prefix p' s'
  | String _ _, EmptyString => false
  end.

Fixpoint is_substring (p s : string) : bool :=
  is_prefix p s ||
  match s with
  | EmptyString => false
  | String _ s' => is_substring p s'
  end.

Definition is_str (key : string) (x : json) : bool :=
  match x with
  | JStr s => String.eqb s key
  | _ => false
  end.

(** [key in x] for a string key. *)
Definition contains (key : string) (x : json) : result bool :=
  match x with
  | JObj fields =>
      Ok (match lookup key fields with Some _ => true | None => false end)
  | JArr items => Ok (existsb (is_str key) items)
  | JStr s => Ok (is_substring key s)
  | JNull | JBool _ | JNum _ => Raise TypeError
  end.

Fixpoint chars (s : string) : list json :=
  match s with
  | EmptyString => []
  | String c r => JStr (String c "") :: chars r
  end.

(** What [for item in x] goes through. *)
Definition iterate (x : json) : result (list json) :=
  match x with
  | JArr items => Ok items
  | JObj fields => Ok (map (fun f => JStr (fst f)) fields)
  | JStr s => Ok (chars s)
  | JNull | JBool _ | JNum _ => Raise TypeError
  end.

Fixpoint prefix (n : nat) (s : string) : string :=
  match n, s with
  | S n', String c r => String c (prefix n' r)
  | _, _ => EmptyString
  end.

(** [x[:3]]; slicing a dict is a [TypeError] up to Python 3.11. *)
Definition first_three (x : json) : result json :=
  match x with
  | JArr items => Ok (JArr (firstn 3 items))
  | JStr s => Ok (JStr (prefix 3 s))
  | _ => Raise TypeError
  end.

(** [[item['name'] for item in x]] *)
Definition names_of (x : json) : result (list json) :=
  items <- iterate x ;;
  traverse (fun item => subscript item "name") items.

(** [[c['name'] for c in x if c.get('job') == 'Director']] *)
Fixpoint directors_among (items : list json) : result (list json) :=
  match items with
  | [] => Ok []
  | c :: rest =>
      job <- get c "job" JNull ;;
      if is_str "Director" job then
        name <- subscript c "name" ;;
        others <- directors_among rest ;;
        Ok (name :: others)
      else directors_among rest
  end.

Definition directors_of (x : json) : result (list json) :=
  items <- iterate x ;;
  directors_among items.

(** *** Requests and replies *)

Inductive request : Type :=
| Popular (page : nat)
| Details (movie_id : json)
| Credits (movie_id : json)
| Keywords (movie_id : json).

Inductive reply : Type :=
| Failed               (* ConnectionError, Timeout, RequestException *)
| Answer (body : json) (* what response.json() returns *)
| Fault (e : exn).     (* any other exception *)

Definition Net := request -> nat -> reply.

(** The body of [for attempt in range(max_retries)], over the attempts
    still to run; Python's [None] is [JNull]. *)
Fixpoint fetch_attempts (net : Net) (url : request) (max_retries : nat)
         (attempts : list nat) : result json :=
  match attempts with
  | [] => Ok JNull
  | attempt :: rest =>
      match net url attempt with
      | Answer body => Ok body
      | Failed =>
          if attempt <? max_retries - 1
          then fetch_attempts net url max_retries rest
          else Ok JNull
      | Fault e => Raise e
      end
  end.

Definition fetch_with_retry (net : Net) (url : request) (max_retries : nat)
  : result json :=
  fetch_attempts net url max_retries (seq 0 max_retries).

(** [fetch_keywords] *)
Definition fetch_keywords (net : Net) (movie_id : json)
  : result (list json) :=
  data <- fetch_with_retry net (Keywords movie_id) 5 ;;
  if truthy data then
    present <- contains "keywords" data ;;
    if present : bool then
      keywords <- subscript data "keywords" ;;
      names_of keywords
    else Ok []
  else Ok [].

(** The dict that [fetch_movie_details] returns. *)
Record movie : Type := {
  movie_id : json;
  title : json;
  overview : json;
  genres : list json;
  keywords : list json;
  cast : list json;
  crew : list json
}.

(** [fetch_movie_details] *)
Definition fetch_movie_details (net : Net) (id : json)
  : result (option movie) :=
  details <- fetch_with_retry net (Details id) 5 ;;
  if negb (truthy details) then Ok None else
  credits <- fetch_with_retry net (Credits id) 5 ;;
  if negb (truthy credits) then Ok None else
  kws <- fetch_keywords net id ;;
  the_title <- get details "title" (JStr "") ;;
  the_overview <- get details "overview" (JStr "") ;;
  genre_list <- get details "genres" (JArr []) ;;
  genre_names <- names_of genre_list ;;
  cast_list <- get credits "cast" (JArr []) ;;
  top_cast <- first_three cast_list ;;
  cast_names <- names_of top_cast ;;
  crew_list <- get credits "crew" (JArr []) ;;
  director_names <- directors_of crew_list ;;
  Ok (Some {| movie_id := id; title := the_title; overview := the_overview;
              genres := genre_names; keywords := kws;
              cast := cast_names; crew := director_names |}).

(** The inner loop of [fetch_movies_from_tmdb]: the movies of one page. *)
Fixpoint fetch_listed (net : Net) (results : list json)
  : result (list movie) :=
  match results with
  | [] => Ok []
  | entry :: rest =>
      id <- subscript entry "id" ;;
      details <- fetch_movie_details net id ;;
      others <- fetch_listed net rest ;;
      Ok (match details with
          | Some m => m :: others
          | None => others
          end)
  end.

Definition fetch_page (net : Net) (page : nat) : result (list movie) :=
  data <- fetch_with_retry net (Popular page) 5 ;;
  if truthy data then
    present <- contains "results" data ;;
    if present : bool then
      results <- subscript data "results" ;;
      entries <- iterate results ;;
      fetch_listed net entries
    else Ok []
  else Ok [].

(** The outer loop, over the pages still to fetch. *)
Fixpoint fetch_pages (net : Net) (pages : list nat) : result (list movie) :=
  match pages with
  | [] => Ok []
  | page :: rest =>
      found <- fetch_page net page ;;
      more <- fetch_pages net rest ;;
      Ok (found ++ more)
  end.

(** [fetch_movies_from_tmdb]: [pd.DataFrame(movies_data)] labels the rows
    0, 1, 2, ... *)
Definition fetch_movies_from_tmdb (net : Net) (pages : nat)
  : result (list (Z * movie)) :=
  movies_data <- fetch_pages net (seq 1 pages) ;;
  Ok (combine (map Z.of_nat (seq 0 (length movies_data))) movies_data).

(** A cell of the frame as [preprocess_data] sees it; booleans and dicts
    have no counterpart among its cells. *)
Fixpoint cell (x : json) : option Updater.pyval :=
  match x with
  | JNull => Some Updater.PyNone
  | JNum n => Some (Updater.PyInt n)
  | JStr s => Some (Updater.PyStr s)
  | JArr items =>
      option_map Updater.PyList
        ((fix cells (l : list json) : option (list Updater.pyval) :=
            match l with
            | [] => Some []
            | y :: r =>
                match cell y, cells r with
                | Some v, Some vs => Some (v :: vs)
                | _, _ => None
                end
            end) items)
  | JBool _ | JObj _ => None
  end.

(** One row of [pd.DataFrame(movies_data)]. *)
Definition row_of (m : movie) : option Updater.raw_movie :=
  match cell (movie_id m), cell (title m), cell (overview m),
        cell (JArr (genres m)), cell (JArr (keywords m)),
        cell (JArr (cast m)), cell (JArr (crew m)) with
  | Some i, Some t, Some o, Some g, Some k, Some c, Some d =>
      Some {| Updater.movie_id := i; Updater.title := t;
              Updater.overview := o; Updater.genres := g;
              Updater.keywords := k; Updater.cast := c;
              Updater.crew := d |}
  | _, _, _, _, _, _, _ => None
  end.

End Tmdb.

(** ** Sample TMDb replies *)

Module TmdbSamples.
Import Tmdb.

Definition person (name job : string) : json :=
  JObj [("name"%string, JStr name); ("job"%string, JStr job)].

Definition matrix_details : json :=
  JObj [("title"%string, JStr "The Matrix");
        ("overview"%string, JStr "A hacker learns the truth");
        ("genres"%string, JArr [JObj [("name"%string, JStr "Science Fiction")]])].

Definition matrix_credits : json :=
  JObj [("cast"%string, JArr [person "Keanu Reeves" "Actor";
                       person "Laurence Fishburne" "Actor";
                       person "Carrie-Anne Moss" "Actor";
                       person "Hugo Weaving" "Actor"]);
        ("crew"%string, JArr [person "Lana Wachowski" "Director";
                       person "Joel Silver" "Producer"])].

(** Details and credits are served, keywords and listings never. *)
Definition keywordless : Net :=
  fun url _ =>
    match url with
    | Details _ => Answer matrix_details
    | Credits _ => Answer matrix_credits
    | Popular _ | Keywords _ => Failed
    end.

(** Page 2 and the details of movie 7 are never served. *)
Definition patchy : Net :=
  fun url _ =>
    match url with
    | Popular 2 => Failed
    | Popular _ => Answer (JObj [("results"%string, JArr [JObj [("id"%string, JNum 7)];
                                                   JObj [("id"%string, JNum 603)]])])
    | Details (JNum 7) => Failed
    | Details _ => Answer matrix_details
    | Credits _ => Answer matrix_credits
    | Keywords _ => Failed
    end.

(** A movie that TMDb lists with a null overview. *)
Definition untold_details : json :=
  JObj [("title"%string, JStr "Untold"); ("overview"%string, JNull); ("genres"%string, JArr [])].

Definition untold : Net :=
  fun url _ =>
    match url with
    | Details _ => Answer untold_details
    | Credits _ => Answer matrix_credits
    | Popular _ | Keywords _ => Failed
    end.

End TmdbSamples.

(** ** [src/github_release_manager.py]

    Everything outside the program is an oracle: what PyGithub, [os.path],
    [open] and [requests.get] answer.  The answers inside a loop are
    indexed by the iteration that asks, so that they may depend on what
    went before.  What the program does to the release is the list of its
    [action]s in order; what it does to the disk is the [disk] it
    leaves. *)

Module Release.

Record asset : Type := {
  name : string;
  browser_download_url : string
}.

(** A [GitRelease] as far as the source looks at it. *)
Record release : Type := {
  tag_name : string;
  get_assets : result (list asset)
}.

Record World : Type := {
  get_release : string -> result release;
  create_git_release : string -> string -> result release;
  delete_asset : nat -> string -> option exn;
  upload_asset : nat -> string -> string -> option exn;
  path_exists : string -> bool;
  basename : string -> string;
  path_join : string -> string -> string;
  makedirs : string -> option exn;
  requests_get : nat -> string -> result string;
  open_wb : nat -> string -> option exn
}.

Inductive action : Type :=
| Created (tag title : string)
| Deleted (asset_name : string)
| Uploaded (path label : string) (ok : bool).

(** [create_or_get_release(tag_name)], with the defaults for the name and
    the description; the bare [except:] catches whatever [get_release]
    raises. *)
Definition create_or_get_release (w : World) (tag : string)
  : list action * result release :=
  match get_release w tag with
  | Ok found => ([], Ok found)
  | Raise _ =>
      let release_name := ("Model Files " ++ tag)%string in
      match create_git_release w tag release_name with
      | Ok made => ([Created tag release_name], Ok made)
      | Raise e => ([], Raise e)
      end
  end.

(** [filename in existing_assets] *)
Definition listed (filename : string) (existing : list string) : bool :=
  existsb (String.eqb filename) existing.

(** The loop of [upload_files] from iteration [i] on. *)
Fixpoint upload_each (w : World) (existing : list string) (i : nat)
         (files : list string) : list action * result unit :=
  match files with
  | [] => ([], Ok tt)
  | filepath :: rest =>
      let filename := basename w filepath in
      if negb (path_exists w filepath) then upload_each w existing (S i) rest
      else
        let upload :=
          Uploaded filepath filename
            (match upload_asset w i filepath filename with
             | None => true
             | Some _ => false
             end) in
        let (later, outcome) := upload_each w existing (S i) rest in
        if listed filename existing then
          match delete_asset w i filename with
          | Some e => ([Deleted filename], Raise e)
          | None => (Deleted filename :: upload :: later, outcome)
          end
        else (upload :: later, outcome)
  end.

(** [upload_files] *)
Definition upload_files (w : World) (tag : string) (files : list string)
  : list action * result unit :=
  match create_or_get_release w tag with
  | (made, Raise e) => (made, Raise e)
  | (made, Ok rel) =>
      match get_assets rel with
      | Raise e => (made, Raise e)
      | Ok assets =>
          let (done, outcome) := upload_each w (map name assets) 0 files in
          (made ++ done, outcome)
      end
  end.

(** The paths that [upload_asset] was called with, in order. *)
Fixpoint uploads (trace : list action) : list string :=
  match trace with
  | [] => []
  | Uploaded path _ _ :: rest => path :: uploads rest
  | _ :: rest => uploads rest
  end.

(** The disk: the files written, the latest first. *)
Definition disk : Type := list (string * string).

Definition write (path content : string) (fs : disk) : disk :=
  (path, content) :: fs.

Fixpoint read (path : string) (fs : disk) : option string :=
  match fs with
  | [] => None
  | (p, c) :: rest => if String.eqb p path then Some c else read path rest
  end.

(** The loop of [download_files] from iteration [i] on. *)
Fixpoint download_each (w : World) (destination_dir : string) (i : nat)
         (assets : list asset) (fs : disk) : result unit * disk :=
  match assets with
  | [] => (Ok tt, fs)
  | a :: rest =>
      let filepath := path_join w destination_dir (name a) in
      match requests_get w i (browser_download_url a) with
      | Raise e => (Raise e, fs)
      | Ok content =>
          match open_wb w i filepath with
          | Some e => (Raise e, fs)
          | None =>
              download_each w destination_dir (S i) rest
                            (write filepath content fs)
          end
      end
  end.

(** [download_files]: [os.makedirs] is outside the [try], the rest is
    inside it. *)
Definition download_files (w : World) (tag destination_dir : string)
           (fs : disk) : result bool * disk :=
  match makedirs w destination_dir with
  | Some e => (Raise e, fs)
  | None =>
      match get_release w tag with
      | Raise _ => (Ok false, fs)
      | Ok rel =>
          match get_assets rel with
          | Raise _ => (Ok false, fs)
          | Ok [] => (Ok false, fs)
          | Ok assets =>
              match download_each w destination_dir 0 assets fs with
              | (Ok _, fs') => (Ok true, fs')
              | (Raise _, fs') => (Ok false, fs')
              end
          end
      end
  end.

(** Where [download_files] puts an asset. *)
Definition target (w : World) (destination_dir : string) (a : asset)
  : string :=
  path_join w destination_dir (name a).

(** Asset [i] of the release can be fetched and its file opened. *)
Definition downloadable (w : World) (destination_dir : string) (i : nat)
           (a : asset) : Prop :=
  (exists content, requests_get w i (browser_download_url a) = Ok content) /\
  open_wb w i (target w destination_dir a) = None.

End Release.

(** ** Sample releases *)

Module ReleaseSamples.
Import Release.

Definition model_assets : list asset :=
  [ {| name := "movies_dict.pkl";
       browser_download_url := "https://example.org/movies_dict.pkl" |};
    {| name := "movies.index";
       browser_download_url := "https://example.org/movies.index" |} ].

Definition v1 : release :=
  {| tag_name := "v1.0.0"; get_assets := Ok model_assets |}.

Definition slash_join (d n : string) : string := (d ++ "/" ++ n)%string.

(** A release with two assets; uploads always fail, the second download
    fails, the vectorizer is not on the local disk. *)
Definition flaky : World :=
  {| get_release := fun _ => Ok v1;
     create_git_release := fun _ _ => Raise RuntimeError;
     delete_asset := fun _ _ => None;
     upload_asset := fun _ _ _ => Some RuntimeError;
     path_exists := fun p => negb (String.eqb p "data/vectorizer.pkl");
     basename := fun p => substring 5 (String.length p - 5) p;
     path_join := slash_join;
     makedirs := fun _ => None;
     requests_get := fun i _ =>
       match i with 0 => Ok "pickled"%string | _ => Raise RuntimeError end;
     open_wb := fun _ _ => None |}.

(** The same release when everything works. *)
Definition steady : World :=
  {| get_release := fun _ => Ok v1;
     create_git_release := fun _ _ => Raise RuntimeError;
     delete_asset := fun _ _ => None;
     upload_asset := fun _ _ _ => None;
     path_exists := fun _ => true;
     basename := fun p => substring 5 (String.length p - 5) p;
     path_join := slash_join;
     makedirs := fun _ => None;
     requests_get := fun i _ =>
       match i with 0 => Ok "pickled"%string | _ => Ok "indexed"%string end;
     open_wb := fun _ _ => None |}.

Definition model_files : list string :=
  ["data/movies_dict.pkl"; "data/movies.index"; "data/vectorizer.pkl"]%string.

End ReleaseSamples.

(** * Properties of [recommend] *)

Section RecommendFacts.

Variable df : DataFrame.
Variable http : Http.

Lemma slice_one_tl (A : Type) (k : nat) (l : list A) :
  slice 1 (k + 1) l = firstn k (tl l).
Proof.
  unfold slice. rewrite Nat.add_1_r.
  destruct l as [|x l]; simpl.
  - now rewrite firstn_nil.
  - reflexivity.
Qed.

Lemma recommended_indices_length (k : nat) (hits : list Z) :
  length (recommended_indices k hits) <= k.
Proof.
  unfold recommended_indices. rewrite slice_one_tl.
  apply firstn_le_length.
Qed.

Lemma recommended_indices_exact (k : nat) (hits : list Z) :
  length hits = k + 1 -> length (recommended_indices k hits) = k.
Proof.
  intros H. unfold recommended_indices. rewrite slice_one_tl.
  rewrite length_firstn. destruct hits; simpl in *; lia.
Qed.

(** The loop appends one title and one poster per index, or raises. *)
Lemma collect_lengths (idxs : list Z) :
  forall ms ps ms' ps',
    collect df http idxs ms ps = Ok (ms', ps') ->
    length ms' = length ms + length idxs /\
    length ps' = length ps + length idxs.
Proof.
  induction idxs as [|i idxs IH]; intros ms ps ms' ps' H; simpl in H.
  - inversion H; subst. simpl. lia.
  - destruct (iloc df i) as [r|e]; simpl in H; [|discriminate].
    destruct (fetch_poster http (Pandas.movie_id r)) as [p|e];
      simpl in H; [|discriminate].
    apply IH in H. rewrite !length_app in H. simpl in *. lia.
Qed.

(** The titles the loop returns are those of the rows it was sent to,
    in order, after the titles it started from. *)
Lemma collect_titles (idxs : list Z) :
  forall ms ps ms' ps',
    collect df http idxs ms ps = Ok (ms', ps') ->
    exists rows,
      traverse (iloc df) idxs = Ok rows /\
      ms' = ms ++ map Pandas.title rows.
Proof.
  induction idxs as [|i idxs IH]; intros ms ps ms' ps' H; simpl in H.
  - inversion H; subst. exists []. simpl. now rewrite app_nil_r.
  - simpl. destruct (iloc df i) as [r|e]; simpl in H; [|discriminate].
    destruct (fetch_poster http (Pandas.movie_id r)) as [p|e];
      simpl in H; [|discriminate].
    apply IH in H. destruct H as [rows [Ht Hm]].
    exists (r :: rows). rewrite Ht. split; [reflexivity|].
    rewrite Hm, <- app_assoc. reflexivity.
Qed.

Lemma title_index_absent (movie : string) :
  ~ In movie (map (fun r => Pandas.title (snd r)) df) ->
  title_index df movie = [].
Proof.
  unfold title_index. induction df as [|r l IH]; intros H; simpl in *.
  - reflexivity.
  - destruct (String.eqb_spec (Pandas.title (snd r)) movie) as [E|E].
    + exfalso. apply H. now left.
    + apply IH. intros Hin. apply H. now right.
Qed.

End RecommendFacts.

(** C10. Whatever frame, index, network and [k] it is called with,
    [recommend] returns two lists of the same length, and that length is at
    most [k]. *)
Theorem recommend_lists_aligned :
  forall (movie : string) (df : DataFrame) (index : Index) (http : Http)
         (k : nat) (log : list exn),
  exists titles posters,
    fst (recommend movie df index http k log) = Ok (titles, posters) /\
    length titles = length posters /\
    length titles <= k.
Proof.
  intros movie df index http k log. unfold recommend.
  destruct (recommend_try movie df index http k) as [[ms ps]|e] eqn:E.
  - exists ms, ps. split; [reflexivity|].
    unfold recommend_try in E.
    destruct (title_index df movie) as [|self rest].
    + inversion E; subst. simpl. lia.
    + destruct (reconstruct index self) as [q|e]; simpl in E; [|discriminate].
      destruct (search index q (k + 1)) as [hits|e]; simpl in E;
        [|discriminate].
      apply collect_lengths in E. simpl in E.
      pose proof (recommended_indices_length k hits). lia.
  - exists [], []. simpl. repeat split. lia.
Qed.

(** C8. For a title that no row of the frame carries, [recommend] returns
    the pair of empty lists; it does not raise and reports nothing. *)
Theorem recommend_unknown_title :
  forall (movie : string) (df : DataFrame) (index : Index) (http : Http)
         (k : nat) (log : list exn),
    ~ In movie (map (fun r => Pandas.title (snd r)) df) ->
    recommend movie df index http k log = (Ok ([], []), log).
Proof.
  intros movie df index http k log H.
  unfold recommend, recommend_try.
  now rewrite (title_index_absent df movie H).
Qed.

Lemma recommend_unknown_title_witness :
  ~ In "Z"%string (map (fun r => Pandas.title (snd r)) Samples.df3) /\
  recommend "Z" Samples.df3 (IndexFlatIP LowIdFirst Samples.xb3)
            Samples.offline 5 [] = (Ok ([], []), []).
Proof.
  assert (H : ~ In "Z"%string
                (map (fun r => Pandas.title (snd r)) Samples.df3)).
  { simpl. intros [H|[H|[H|[]]]]; discriminate H. }
  split; [exact H|].
  exact (recommend_unknown_title "Z" Samples.df3
           (IndexFlatIP LowIdFirst Samples.xb3) Samples.offline 5 [] H).
Defined.

(** ** What the [except] clause does *)

(** An out-of-range [reconstruct] is one way for the [try] block to raise. *)
Lemma reconstruct_failure_raises
      (movie : string) (df : DataFrame) (index : Index) (http : Http)
      (k : nat) (self : Z) (others : list Z) (e : exn) :
  title_index df movie = self :: others ->
  reconstruct index self = Raise e ->
  recommend_try movie df index http k = Raise e.
Proof.
  intros Hself He. unfold recommend_try. now rewrite Hself, He.
Qed.

(** C4, as the code has it. Whatever the [try] block raises (an
    out-of-range [reconstruct], a hit outside the frame, a failing search)
    is caught inside [recommend]: the exception is reported through
    [st.error] and the call returns the pair of empty lists, which is also
    what any unknown title returns.  Nothing is propagated to the caller. *)
Theorem recommend_catches :
  forall (movie : string) (df : DataFrame) (index : Index) (http : Http)
         (k : nat) (log : list exn) (e : exn),
    recommend_try movie df index http k = Raise e ->
    recommend movie df index http k log = (Ok ([], []), log ++ [e]) /\
    forall other : string,
      ~ In other (map (fun r => Pandas.title (snd r)) df) ->
      fst (recommend movie df index http k log)
      = fst (recommend other df index http k log).
Proof.
  intros movie df index http k log e H.
  assert (Hr : recommend movie df index http k log
               = (Ok ([], []), log ++ [e]))
    by (unfold recommend; now rewrite H).
  split; [exact Hr|].
  intros other Hother. rewrite Hr.
  unfold recommend, recommend_try.
  now rewrite (title_index_absent df other Hother).
Qed.

Lemma recommend_catches_witness :
  recommend "B" Samples.df_pair (IndexFlatIP LowIdFirst Samples.xb_short)
            Samples.offline 5 [] = (Ok ([], []), [] ++ [RuntimeError]).
Proof.
  assert (H : recommend_try "B" Samples.df_pair
                (IndexFlatIP LowIdFirst Samples.xb_short)
                Samples.offline 5 = Raise RuntimeError).
  { apply (reconstruct_failure_raises "B" Samples.df_pair
             (IndexFlatIP LowIdFirst Samples.xb_short) Samples.offline 5
             (self := 1%Z) (others := [])); reflexivity. }
  exact (proj1 (recommend_catches "B" Samples.df_pair
                  (IndexFlatIP LowIdFirst Samples.xb_short)
                  Samples.offline 5 [] H)).
Defined.

(** C4, as the spec has it, fails. The frame has two rows and the index one
    vector; asking for "B" resolves to row 1, which the index does not
    hold.  [reconstruct] raises, yet [recommend] returns normally, with the
    very value it returns for a title nobody has heard of. *)
Lemma desync_is_swallowed :
  reconstruct (IndexFlatIP LowIdFirst Samples.xb_short) 1 = Raise RuntimeError
  /\ (forall e,
        fst (recommend "B" Samples.df_pair
               (IndexFlatIP LowIdFirst Samples.xb_short)
               Samples.offline 5 []) <> Raise e)
  /\ fst (recommend "B" Samples.df_pair
            (IndexFlatIP LowIdFirst Samples.xb_short)
            Samples.offline 5 []) = Ok ([], [])
  /\ fst (recommend "B" Samples.df_pair
            (IndexFlatIP LowIdFirst Samples.xb_short)
            Samples.offline 5 [])
     = fst (recommend "no such movie" Samples.df_pair
              (IndexFlatIP LowIdFirst Samples.xb_short)
              Samples.offline 5 []).
Proof.
  repeat split; try reflexivity. intros e H. discriminate H.
Qed.

(** ** Which hit is dropped *)




(** ** The query among its own recommendations *)

(** C1 fails on the code. With the default [k = 5] and three movies, the
    search for 6 neighbours of "C" returns three labels and three times the
    padding label -1; [iloc[-1]] is the last row, which is "C" itself.  And
    when one movie sits in the corpus twice, its second copy is among the
    neighbours of the first.  Neither run depends on how ties are ordered. *)
Theorem recommend_returns_the_query :
  forall t : TieOrder,
    fst (recommend "C" Samples.df3 (IndexFlatIP t Samples.xb3)
           Samples.offline 5 [])
    = Ok (["B"; "A"; "C"; "C"; "C"]%string, [None; None; None; None; None])
    /\
    fst (recommend "A" Samples.df_twice (IndexFlatIP t Samples.xb_twice)
           Samples.offline 1 [])
    = Ok (["A"%string], [None]).
Proof.
  intros t. destruct t; split; reflexivity.
Qed.

(** ** Asking the flat index for more than it holds *)

Section FlatSearchFacts.

Variable t : TieOrder.

Lemma insert_hit_length (h : Q * Z) (l : list (Q * Z)) :
  length (insert_hit t h l) = S (length l).
Proof.
  induction l as [|x l IH]; simpl; [reflexivity|].
  destruct (ranks_before t h x); simpl; [reflexivity|now rewrite IH].
Qed.

Lemma rank_hits_length (l : list (Q * Z)) :
  length (rank_hits t l) = length l.
Proof.
  induction l as [|x l IH]; simpl; [reflexivity|].
  unfold rank_hits in *. simpl. now rewrite insert_hit_length, IH.
Qed.

Lemma insert_hit_In (x h : Q * Z) (l : list (Q * Z)) :
  In x (insert_hit t h l) -> x = h \/ In x l.
Proof.
  induction l as [|y l IH]; simpl.
  - intros [H|[]]; now left.
  - destruct (ranks_before t h y); simpl.
    + intros [H|[H|H]]; auto.
    + intros [H|H]; auto. destruct (IH H); auto.
Qed.

Lemma rank_hits_In (x : Q * Z) (l : list (Q * Z)) :
  In x (rank_hits t l) -> In x l.
Proof.
  induction l as [|y l IH]; simpl; [tauto|].
  intros H. apply insert_hit_In in H. destruct H as [H|H]; auto.
Qed.

(** The ranking is a rearrangement of the scored rows, best score first,
    whichever way ties go. *)
Lemma ranks_before_score (a b : Q * Z) :
  ranks_before t a b = true -> score_no_less a b.
Proof.
  unfold ranks_before, score_no_less.
  destruct (fst a ?= fst b)%Q eqn:E; intros H; try discriminate.
  - apply Qeq_alt in E. rewrite E. apply Qle_refl.
  - apply Qgt_alt in E. now apply Qlt_le_weak.
Qed.

Lemma ranks_after_score (a b : Q * Z) :
  ranks_before t a b = false -> score_no_less b a.
Proof.
  unfold ranks_before, score_no_less.
  destruct (fst a ?= fst b)%Q eqn:E; intros H; try discriminate.
  - apply Qeq_alt in E. rewrite E. apply Qle_refl.
  - apply Qlt_alt in E. now apply Qlt_le_weak.
Qed.

Lemma insert_hit_sorted (h : Q * Z) (l : list (Q * Z)) :
  StronglySorted score_no_less l ->
  StronglySorted score_no_less (insert_hit t h l).
Proof.
  induction 1 as [|x l Hl IH Hx]; simpl.
  - constructor; constructor.
  - destruct (ranks_before t h x) eqn:E.
    + apply ranks_before_score in E. constructor.
      * now constructor.
      * constructor; [exact E|].
        eapply Forall_impl; [|exact Hx]. unfold score_no_less in *.
        intros a Ha. eapply Qle_trans; eauto.
    + apply ranks_after_score in E. constructor; [assumption|].
      apply Forall_forall. intros a Ha. apply insert_hit_In in Ha.
      destruct Ha as [->|Ha]; [exact E|].
      exact (proj1 (Forall_forall _ _) Hx a Ha).
Qed.

Lemma rank_hits_sorted (l : list (Q * Z)) :
  StronglySorted score_no_less (rank_hits t l).
Proof.
  induction l as [|x l IH]; simpl; [constructor|].
  now apply insert_hit_sorted.
Qed.

Lemma insert_hit_perm (h : Q * Z) (l : list (Q * Z)) :
  Permutation (insert_hit t h l) (h :: l).
Proof.
  induction l as [|x l IH]; simpl; [reflexivity|].
  destruct (ranks_before t h x); [reflexivity|].
  rewrite IH. apply perm_swap.
Qed.

Lemma rank_hits_perm (l : list (Q * Z)) :
  Permutation (rank_hits t l) l.
Proof.
  induction l as [|x l IH]; simpl; [reflexivity|].
  unfold rank_hits in *. simpl. rewrite insert_hit_perm. now constructor.
Qed.
Lemma firstn_In (A : Type) (n : nat) (x : A) (l : list A) :
  In x (firstn n l) -> In x l.
Proof.
  intros H. rewrite <- (firstn_skipn n l). apply in_or_app. now left.
Qed.

Lemma scored_length (xb : list vec) (q : vec) :
  length (scored xb q) = length xb.
Proof.
  unfold scored.
  rewrite length_combine, !length_map, length_seq. apply Nat.min_id.
Qed.

Lemma scored_label_range (xb : list vec) (q : vec) (h : Q * Z) :
  In h (scored xb q) -> (0 <= snd h < Z.of_nat (length xb))%Z.
Proof.
  unfold scored. destruct h as [s i]. intros H.
  apply in_combine_r in H. apply in_map_iff in H.
  destruct H as [n [Hn Hin]]. apply in_seq in Hin. subst i. simpl. lia.
Qed.

Lemma flat_search_length (xb : list vec) (q : vec) (k : nat) :
  length (flat_search t xb q k) = k.
Proof.
  unfold flat_search. rewrite length_app, length_map, repeat_length.
  pose proof (firstn_le_length k (rank_hits t (scored xb q))). lia.
Qed.

Lemma flat_search_range (xb : list vec) (q : vec) (k : nat) :
  Forall (fun i => i = (-1)%Z \/ (0 <= i < Z.of_nat (length xb))%Z)
         (flat_search t xb q k).
Proof.
  unfold flat_search. apply Forall_app. split.
  - apply Forall_forall. intros i Hi. right.
    apply in_map_iff in Hi. destruct Hi as [h [Hh Hin]]. subst i.
    apply (scored_label_range xb q).
    apply rank_hits_In. eapply firstn_In; eauto.
  - apply Forall_forall. intros i Hi. left. eapply repeat_spec; eauto.
Qed.

Lemma filter_keep_all (A : Type) (f : A -> bool) (l : list A) :
  Forall (fun x => f x = true) l -> filter f l = l.
Proof.
  induction 1 as [|x l Hx Hl IH]; simpl; [reflexivity|].
  now rewrite Hx, IH.
Qed.

Lemma filter_drop_all (A : Type) (f : A -> bool) (l : list A) :
  Forall (fun x => f x = false) l -> filter f l = [].
Proof.
  induction 1 as [|x l Hx Hl IH]; simpl; [reflexivity|].
  now rewrite Hx.
Qed.

(** With room for every stored vector, each of them is reported once. *)
Lemma flat_search_valid_count (xb : list vec) (q : vec) (k : nat) :
  length xb <= k ->
  length (filter (fun i => (0 <=? i)%Z) (flat_search t xb q k))
  = length xb.
Proof.
  intros Hk. unfold flat_search.
  rewrite firstn_all2 by (rewrite rank_hits_length, scored_length; lia).
  rewrite filter_app.
  rewrite filter_keep_all, filter_drop_all.
  - now rewrite app_nil_r, length_map, rank_hits_length, scored_length.
  - apply Forall_forall. intros i Hi. apply repeat_spec in Hi. now subst i.
  - apply Forall_forall. intros i Hi.
    apply in_map_iff in Hi. destruct Hi as [h [Hh Hin]]. subst i.
    apply rank_hits_In, (scored_label_range xb q) in Hin.
    apply Z.leb_le. lia.
Qed.

End FlatSearchFacts.

(** Asked for [k] neighbours of a corpus of [N < k] vectors, the flat index
    answers with [k] labels and no error: [N] of them are row positions and
    the others are the padding label -1.  [recommend] filters nothing out
    of them: a non-empty answer has [k] entries. *)
Lemma search_pads_recommend_does_not_cap :
  forall (t : TieOrder) (xb : list vec) (q : vec) (k : nat),
    length xb < k ->
    length (flat_search t xb q k) = k /\
    length (filter (fun i => (0 <=? i)%Z) (flat_search t xb q k))
    = length xb /\
    Forall (fun i => i = (-1)%Z \/ (0 <= i < Z.of_nat (length xb))%Z)
           (flat_search t xb q k) /\
    forall (movie : string) (df : DataFrame) (http : Http)
           (log : list exn) titles posters,
      fst (recommend movie df (IndexFlatIP t xb) http k log)
      = Ok (titles, posters) ->
      length titles = 0 \/ length titles = k.
Proof.
  intros t xb q k Hk. repeat split.
  - apply flat_search_length.
  - apply flat_search_valid_count. lia.
  - apply flat_search_range.
  - intros movie df http log titles posters H.
    unfold recommend in H.
    destruct (recommend_try movie df (IndexFlatIP t xb) http k)
      as [[ms ps]|e] eqn:E; simpl in H; inversion H; subst; auto.
    unfold recommend_try in E.
    destruct (title_index df movie) as [|self rest].
    + inversion E; subst. now left.
    + simpl in E.
      destruct (flat_reconstruct xb self) as [v|e]; simpl in E;
        [|discriminate].
      apply collect_lengths in E. right. simpl in E.
      rewrite recommended_indices_exact in E by apply flat_search_length.
      lia.
Qed.

Lemma search_pads_recommend_does_not_cap_witness :
  length (flat_search LowIdFirst Samples.xb3 [1 # 1; 0 # 1]%Q 10) = 10 /\
  length (filter (fun i => (0 <=? i)%Z)
            (flat_search LowIdFirst Samples.xb3 [1 # 1; 0 # 1]%Q 10)) = 3.
Proof.
  assert (H : length Samples.xb3 < 10) by (simpl; lia).
  pose proof (search_pads_recommend_does_not_cap
                LowIdFirst Samples.xb3 [1 # 1; 0 # 1]%Q H) as [H1 [H2 _]].
  split; [exact H1 | exact H2].
Defined.

(** C3 fails on the code. The search itself tolerates [k] above the corpus
    size, but [recommend] does not cap its answer: with three movies and
    [k = 10] it returns ten entries, not two.  The eight padding labels -1
    are read by [iloc] as the last row, so "C" is recommended nine times,
    whichever way ties are ordered. *)
Theorem ten_recommendations_from_three_movies :
  (let out := fst (recommend "A" Samples.df3
                     (IndexFlatIP LowIdFirst Samples.xb3)
                     Samples.offline 10 []) in
   out = Ok (["B"; "C"; "C"; "C"; "C"; "C"; "C"; "C"; "C"; "C"]%string,
             repeat None 10))
  /\
  (let out := fst (recommend "A" Samples.df3
                     (IndexFlatIP HighIdFirst Samples.xb3)
                     Samples.offline 10 []) in
   out = Ok (["B"; "C"; "C"; "C"; "C"; "C"; "C"; "C"; "C"; "C"]%string,
             repeat None 10))
  /\ ~ (10 <= length Samples.df3 - 1).
Proof.
  repeat split; simpl; lia.
Qed.

(** * Properties of [preprocess_data] *)

Section PreprocessFacts.
Import Updater UpdaterSpec.

Variable self : MovieDataUpdater.






Lemma assemble_labels (df : list (Z * raw_movie)) :
  forall g kw c cr,
    length g = length df -> length kw = length df ->
    length c = length df -> length cr = length df ->
    map fst (assemble self df g kw c cr) = map fst df.
Proof.
  induction df as [|[label r] df IH]; intros g kw c cr Hg Hkw Hc Hcr.
  - reflexivity.
  - destruct g, kw, c, cr; try discriminate. simpl in *.
    f_equal. apply IH; lia.
Qed.




End PreprocessFacts.

Section PreprocessBlank.
Import Updater UpdaterSpec.

Variable self : MovieDataUpdater.




Lemma preprocess_data_columns (df : list (Z * raw_movie)) :
  df <> [] -> preprocess_data self df = process_columns self df.
Proof.
  destruct df; [contradiction|reflexivity].
Qed.




End PreprocessBlank.




(** * Properties of the vocabulary *)

Module CounterFacts := FMapFacts.Facts Sklearn.Counter.

Section VocabularyFacts.
Import Sklearn.

Lemma count_of_add (m : Counter.t nat) (a t : string) (n : nat) :
  count_of (Counter.add a n m) t = if string_dec a t then n else count_of m t.
Proof.
  unfold count_of. rewrite CounterFacts.add_o.
  destruct (String_as_OT.eq_dec a t) as [E|E], (string_dec a t) as [E'|E'];
    try reflexivity; contradiction.
Qed.

Lemma count_of_fold (tokens : list string) :
  forall (m : Counter.t nat) (t : string),
    count_of (fold_left (fun m t => Counter.add t (S (count_of m t)) m)
                        tokens m) t
    = count_of m t + occurrences t tokens.
Proof.
  unfold occurrences.
  induction tokens as [|a tokens IH]; intros m t; simpl.
  - lia.
  - rewrite IH, count_of_add.
    destruct (string_dec a t) as [E|E].
    + subst. rewrite String.eqb_refl. simpl. lia.
    + destruct (String.eqb_spec t a) as [E'|E']; [now subst|lia].
Qed.

Lemma in_fold (tokens : list string) :
  forall (m : Counter.t nat) (t : string),
    Counter.In t (fold_left (fun m t => Counter.add t (S (count_of m t)) m)
                            tokens m)
    <-> In t tokens \/ Counter.In t m.
Proof.
  induction tokens as [|a tokens IH]; intros m t; simpl.
  - tauto.
  - rewrite IH, CounterFacts.add_in_iff. unfold String_as_OT.eq. tauto.
Qed.

Lemma InA_eq_key_elt (A : Type) (x : string * A) (l : list (string * A)) :
  InA (@Counter.eq_key_elt A) x l <-> In x l.
Proof.
  rewrite InA_alt. split.
  - intros [[k v] [[Hk Hv] Hin]]. destruct x as [k' v']. simpl in *.
    unfold String_as_OT.eq in Hk. now subst.
  - intros H. exists x. split; [|assumption]. split; reflexivity.
Qed.

Lemma counted_spec (tokens : list string) (t : string) (n : nat) :
  In (t, n) (Counter.elements (count_terms tokens))
  <-> In t tokens /\ n = occurrences t tokens.
Proof.
  rewrite <- InA_eq_key_elt, <- CounterFacts.elements_mapsto_iff.
  unfold count_terms. split.
  - intros H. split.
    + assert (Hin : Counter.In t
                      (fold_left (fun m t => Counter.add t (S (count_of m t)) m)
                                 tokens (Counter.empty nat)))
        by (exists n; exact H).
      apply in_fold in Hin. destruct Hin as [Hin|Hin]; [assumption|].
      now apply CounterFacts.empty_in_iff in Hin.
    + apply CounterFacts.find_mapsto_iff in H.
      pose proof (count_of_fold tokens (Counter.empty nat) t) as Hc.
      unfold count_of in Hc at 1. rewrite H in Hc.
      unfold count_of in Hc. rewrite CounterFacts.empty_o in Hc. lia.
  - intros [Hin Hn].
    assert (Hm : Counter.In t
                   (fold_left (fun m t => Counter.add t (S (count_of m t)) m)
                              tokens (Counter.empty nat)))
      by (apply in_fold; now left).
    destruct Hm as [n' Hn'].
    assert (n' = n); [|now subst].
    pose proof Hn' as Hf. apply CounterFacts.find_mapsto_iff in Hf.
    pose proof (count_of_fold tokens (Counter.empty nat) t) as Hc.
    unfold count_of in Hc at 1. rewrite Hf in Hc.
    unfold count_of in Hc. rewrite CounterFacts.empty_o in Hc. lia.
Qed.


Lemma insert_count_In (x y : string * nat) (l : list (string * nat)) :
  In y (insert_count x l) <-> y = x \/ In y l.
Proof.
  induction l as [|z l IH]; simpl.
  - intuition.
  - destruct (snd z <=? snd x); simpl; [intuition|].
    rewrite IH. intuition.
Qed.

Lemma by_count_In (y : string * nat) (l : list (string * nat)) :
  In y (by_count l) <-> In y l.
Proof.
  induction l as [|x l IH]; simpl; [tauto|].
  rewrite insert_count_In, IH. intuition.
Qed.

Lemma insert_count_length (x : string * nat) (l : list (string * nat)) :
  length (insert_count x l) = S (length l).
Proof.
  induction l as [|z l IH]; simpl; [reflexivity|].
  destruct (snd z <=? snd x); simpl; [reflexivity|now rewrite IH].
Qed.

Lemma by_count_length (l : list (string * nat)) :
  length (by_count l) = length l.
Proof.
  induction l as [|x l IH]; simpl; [reflexivity|].
  now rewrite insert_count_length, IH.
Qed.




Lemma mark_fold (terms : list (string * nat)) :
  forall (s : Counter.t unit) (t : string),
    Counter.In t (fold_left (fun s t => Counter.add (fst t) tt s) terms s)
    <-> In t (map fst terms) \/ Counter.In t s.
Proof.
  induction terms as [|a terms IH]; intros s t; simpl.
  - tauto.
  - rewrite IH, CounterFacts.add_in_iff. unfold String_as_OT.eq. tauto.
Qed.

Lemma mark_spec (terms : list (string * nat)) (t : string) :
  Counter.mem t (mark terms) = true <-> In t (map fst terms).
Proof.
  rewrite <- CounterFacts.mem_in_iff. unfold mark. rewrite mark_fold.
  rewrite CounterFacts.empty_in_iff. tauto.
Qed.





Lemma limit_features_nonempty (limit : nat) (tfs : list (string * nat)) :
  0 < limit -> tfs <> [] -> limit_features limit tfs <> [].
Proof.
  intros Hl Ht. unfold limit_features.
  destruct (limit <? length tfs) eqn:E.
  - apply Nat.ltb_lt in E.
    destruct (by_count tfs) as [|[t n] rest] eqn:Hb.
    { pose proof (by_count_length tfs) as H. rewrite Hb in H. simpl in H. lia. }
    destruct limit as [|limit]; [lia|]. simpl firstn.
    intros Hnil.
    assert (Hin : In t (filter
                          (fun t0 => Counter.mem t0 (mark ((t, n) :: firstn limit rest)))
                          (map fst tfs))).
    { apply filter_In. split.
      - apply in_map_iff. exists (t, n). split; [reflexivity|].
        apply by_count_In. rewrite Hb. now left.
      - apply mark_spec. now left. }
    rewrite Hnil in Hin. contradiction.
  - destruct tfs; [contradiction|discriminate].
Qed.



End VocabularyFacts.




(** * More on [fetch_poster] *)

Section FetchPosterFacts.

Variable http : Http.
Variable movie_id : Z.

(** The attempts [a, a+1, ...] of the loop, all of them below five. *)
Lemma fetch_poster_attempts_some (n : nat) :
  forall (a : nat) (u : string),
    a + n <= 5 ->
    (fetch_poster_attempts http movie_id (seq a n) = Ok (Some u) <->
     exists i p,
       a <= i < a + n /\
       (forall j, a <= j < i -> http movie_id j = RequestException) /\
       http movie_id i = PosterPath (Some p) /\
       p <> ""%string /\
       u = (poster_base ++ p)%string).
Proof.
  induction n as [|n IH]; intros a u Ha; simpl.
  - split; [discriminate|]. intros [i [p [Hi _]]]. lia.
  - destruct (http movie_id a) as [|[p|]|e] eqn:E.
    + destruct (a <? 4) eqn:E4.
      2:{ apply Nat.ltb_ge in E4.
          split; [discriminate|].
          intros [i [p [Hi [_ [Hp _]]]]]. assert (i = a) by lia. subst i.
          rewrite E in Hp. discriminate. }
      rewrite IH by lia. split.
      * intros [i [p [Hi [Hfail Hrest]]]]. exists i, p.
        split; [lia|]. split; [|exact Hrest].
        intros j Hj. destruct (Nat.eq_dec j a) as [->|Hne]; [exact E|].
        apply Hfail. lia.
      * intros [i [p [Hi [Hfail [Hp Hrest]]]]]. exists i, p.
        assert (i <> a) by (intros ->; rewrite E in Hp; discriminate).
        split; [lia|]. split; [|split; assumption].
        intros j Hj. apply Hfail. lia.
    + destruct (String.eqb_spec p "") as [Hp|Hp].
      * split; [discriminate|].
        intros [i [p' [Hi [Hfail [Hp' [Hne _]]]]]].
        destruct (Nat.eq_dec i a) as [->|Hia].
        -- rewrite E in Hp'. inversion Hp'. congruence.
        -- rewrite Hfail in E by lia. discriminate.
      * split.
        -- intros H. inversion H. exists a, p. repeat split; try lia; auto.
        -- intros [i [p' [Hi [Hfail [Hp' [Hne Hu]]]]]].
           destruct (Nat.eq_dec i a) as [->|Hia].
           ++ rewrite E in Hp'. inversion Hp'. now subst.
           ++ rewrite Hfail in E by lia. discriminate.
    + split; [discriminate|].
      intros [i [p' [Hi [Hfail [Hp' _]]]]].
      destruct (Nat.eq_dec i a) as [->|Hia].
      * rewrite E in Hp'. discriminate.
      * rewrite Hfail in E by lia. discriminate.
    + split; [discriminate|].
      intros [i [p' [Hi [Hfail [Hp' _]]]]].
      destruct (Nat.eq_dec i a) as [->|Hia].
      * rewrite E in Hp'. discriminate.
      * rewrite Hfail in E by lia. discriminate.
Qed.

Lemma fetch_poster_attempts_total (n : nat) :
  forall a : nat,
    (forall i e, a <= i < a + n -> http movie_id i <> Raises e) ->
    exists r, fetch_poster_attempts http movie_id (seq a n) = Ok r.
Proof.
  induction n as [|n IH]; intros a H; simpl; [eauto|].
  destruct (http movie_id a) as [|[p|]|e] eqn:E.
  - destruct (a <? 4); [|eauto]. apply IH. intros i e Hi. apply H. lia.
  - destruct (String.eqb p ""); eauto.
  - eauto.
  - exfalso. apply (H a e); [lia|exact E].
Qed.

Lemma fetch_poster_attempts_ext (http' : Http) (n : nat) :
  forall a : nat,
    (forall i, a <= i < a + n -> http movie_id i = http' movie_id i) ->
    fetch_poster_attempts http movie_id (seq a n)
    = fetch_poster_attempts http' movie_id (seq a n).
Proof.
  induction n as [|n IH]; intros a H; simpl; [reflexivity|].
  rewrite <- (H a) by lia.
  destruct (http movie_id a) as [|[p|]|e]; try reflexivity.
  destruct (a <? 4); [|reflexivity]. apply IH. intros i Hi. apply H. lia.
Qed.

Lemma fetch_poster_timed_attempts_result (attempts : list nat) :
  fst (AppUi.fetch_poster_timed_attempts http movie_id attempts)
  = fetch_poster_attempts http movie_id attempts.
Proof.
  induction attempts as [|i rest IH]; simpl; [reflexivity|].
  destruct (http movie_id i) as [|[p|]|e]; try reflexivity.
  destruct (i <? 4); [|reflexivity].
  destruct (AppUi.fetch_poster_timed_attempts http movie_id rest). exact IH.
Qed.

(** From attempt [a] on, the loop sleeps 2^a, 2^(a+1), ... seconds, one
    sleep after each failed attempt below the fifth, and stops sleeping at
    the first attempt that does not fail that way. *)
Lemma fetch_poster_timed_attempts_waits (n : nat) :
  forall a : nat,
    exists m,
      m <= n /\ (m = 0 \/ a + m <= 4) /\
      (forall j, a <= j < a + m -> http movie_id j = RequestException) /\
      (m < n -> a + m < 4 -> http movie_id (a + m) <> RequestException) /\
      snd (AppUi.fetch_poster_timed_attempts http movie_id (seq a n))
      = map (Nat.pow 2) (seq a m).
Proof.
  assert (Hstop0 : forall a k,
             http movie_id a <> RequestException \/ 4 <= a ->
             0 <= S k /\ (0 = 0 \/ a + 0 <= 4) /\
             (forall j, a <= j < a + 0 -> http movie_id j = RequestException) /\
             (0 < S k -> a + 0 < 4 ->
              http movie_id (a + 0) <> RequestException)).
  { intros a k H. split; [lia|]. split; [now left|].
    split; [intros j Hj; lia|].
    intros _ Ha. rewrite Nat.add_0_r in *. destruct H as [H|H]; [exact H|lia]. }
  induction n as [|n IH]; intros a; simpl.
  - exists 0. simpl. repeat split; auto; intros; lia.
  - destruct (http movie_id a) as [|[p|]|e] eqn:E.
    + destruct (a <? 4) eqn:E4.
      * apply Nat.ltb_lt in E4.
        destruct (IH (S a)) as [m [Hm [Ha [Hfail [Hstop Hw]]]]].
        destruct (AppUi.fetch_poster_timed_attempts http movie_id
                    (seq (S a) n)) as [r waits].
        simpl in *. exists (S m). simpl. rewrite Hw.
        repeat split; try lia.
        -- intros j Hj. destruct (Nat.eq_dec j a) as [->|Hne]; [exact E|].
           apply Hfail. lia.
        -- intros Hmn H4. replace (a + S m) with (S (a + m)) by lia.
           apply Hstop; lia.
      * apply Nat.ltb_ge in E4. exists 0.
        destruct (Hstop0 a n (or_intror E4)) as [H1 [H2 [H3 H4]]].
        simpl. repeat split; assumption.
    + exists 0.
      destruct (Hstop0 a n) as [H1 [H2 [H3 H4]]];
        [left; rewrite E; discriminate|].
      simpl. repeat split; assumption.
    + exists 0.
      destruct (Hstop0 a n) as [H1 [H2 [H3 H4]]];
        [left; rewrite E; discriminate|].
      simpl. repeat split; assumption.
    + exists 0.
      destruct (Hstop0 a n) as [H1 [H2 [H3 H4]]];
        [left; rewrite E; discriminate|].
      simpl. repeat split; assumption.
Qed.

End FetchPosterFacts.

(** X1. [fetch_poster] returns a URL exactly when, within its five
    attempts, the first reply that is not a request failure carries a
    non-empty poster path; the URL is the image base followed by that
    path. *)
Theorem fetch_poster_url_iff :
  forall (http : Http) (movie_id : Z) (u : string),
    fetch_poster http movie_id = Ok (Some u) <->
    exists i p,
      i < 5 /\
      (forall j, j < i -> http movie_id j = RequestException) /\
      http movie_id i = PosterPath (Some p) /\
      p <> ""%string /\
      u = (poster_base ++ p)%string.
Proof.
  intros http movie_id u. unfold fetch_poster.
  rewrite (fetch_poster_attempts_some http movie_id 5 0 u) by lia.
  split; intros [i [p [Hi [Hfail Hrest]]]]; exists i, p;
    (split; [lia|]); (split; [|exact Hrest]);
    intros j Hj; apply Hfail; lia.
Qed.

(** X2. As long as the network only fails or answers, [fetch_poster] does
    not raise; and when all five attempts fail it gives up with [None]. *)
Theorem fetch_poster_gives_up_quietly :
  forall (http : Http) (movie_id : Z),
    (forall i e, i < 5 -> http movie_id i <> Raises e) ->
    (exists r, fetch_poster http movie_id = Ok r) /\
    ((forall i, i < 5 -> http movie_id i = RequestException) ->
     fetch_poster http movie_id = Ok None).
Proof.
  intros http movie_id H.
  assert (Hok : exists r, fetch_poster http movie_id = Ok r).
  { unfold fetch_poster. apply fetch_poster_attempts_total.
    intros i e Hi. apply H. lia. }
  split; [exact Hok|].
  intros Hfail. destruct Hok as [[u|] Hr]; [|exact Hr].
  unfold fetch_poster in Hr.
  apply (fetch_poster_attempts_some http movie_id 5 0 u) in Hr; [|lia].
  destruct Hr as [i [p [Hi [_ [Hp _]]]]].
  rewrite Hfail in Hp by lia. discriminate.
Qed.

Lemma fetch_poster_gives_up_quietly_witness :
  fetch_poster Samples.offline 11 = Ok None.
Proof.
  apply (fetch_poster_gives_up_quietly Samples.offline 11).
  - intros i e _. discriminate.
  - intros i _. reflexivity.
Defined.

(** X3. [fetch_poster] makes at most five requests: replies to a sixth or
    later attempt have no influence on what it returns. *)
Theorem fetch_poster_five_attempts :
  forall (http http' : Http) (movie_id : Z),
    (forall i, i < 5 -> http movie_id i = http' movie_id i) ->
    fetch_poster http movie_id = fetch_poster http' movie_id.
Proof.
  intros http http' movie_id H. unfold fetch_poster.
  apply fetch_poster_attempts_ext. intros i Hi. apply H. lia.
Qed.

Lemma fetch_poster_five_attempts_witness :
  fetch_poster Samples.offline 11
  = fetch_poster (fun _ i => if i <? 5 then RequestException
                             else PosterPath (Some "/late.jpg"%string)) 11.
Proof.
  apply fetch_poster_five_attempts.
  intros i Hi. apply Nat.ltb_lt in Hi. now rewrite Hi.
Defined.

(** X4. [fetch_poster] sleeps after every failed attempt but the fifth,
    [2 ** attempt] seconds each time.  With [m] the number of attempts
    that fail in a row from the first one on, counted up to four, the
    sleeps are exactly 1, 2, 4, 8 cut to length [m]: none when the first
    attempt does not fail, never more than four, never more than 15
    seconds in all.  The timed loop returns what [fetch_poster] returns. *)
Theorem fetch_poster_backoff :
  forall (http : Http) (movie_id : Z),
    fst (AppUi.fetch_poster_timed http movie_id) = fetch_poster http movie_id
    /\
    exists m,
      m <= 4 /\
      (forall j, j < m -> http movie_id j = RequestException) /\
      (m < 4 -> http movie_id m <> RequestException) /\
      snd (AppUi.fetch_poster_timed http movie_id) = firstn m [1; 2; 4; 8] /\
      list_sum (snd (AppUi.fetch_poster_timed http movie_id)) <= 15.
Proof.
  intros http movie_id. unfold AppUi.fetch_poster_timed, fetch_poster.
  split; [apply fetch_poster_timed_attempts_result|].
  destruct (fetch_poster_timed_attempts_waits http movie_id 5 0)
    as [m [_ [Hm [Hfail [Hstop Hw]]]]].
  exists m. rewrite Hw.
  assert (H4 : m <= 4) by lia.
  split; [exact H4|].
  split; [intros j Hj; apply Hfail; lia|].
  split; [intros Hlt; apply (Hstop ltac:(lia) ltac:(lia))|].
  clear Hfail Hstop Hw.
  do 5 (destruct m as [|m]; [simpl; split; [reflexivity|lia]|]). lia.
Qed.

(** * More on [recommend] *)

Section RecommendRows.

Variable df : DataFrame.
Variable http : Http.

Lemma iloc_In (idx : Z) (r : movie_row) :
  iloc df idx = Ok r -> In r (map snd df).
Proof.
  unfold iloc.
  destruct ((0 <=? _) && _)%Z; [|discriminate].
  destruct (nth_error df _) as [p|] eqn:E; [|discriminate].
  intros H. inversion H; subst. apply in_map. eapply nth_error_In; eauto.
Qed.

Lemma traverse_Forall (A B : Type) (f : A -> result B) (P : B -> Prop)
      (l : list A) :
  (forall x y, f x = Ok y -> P y) ->
  forall ys, traverse f l = Ok ys -> Forall P ys.
Proof.
  intros Hf. induction l as [|x l IH]; simpl; intros ys H.
  - inversion H. constructor.
  - destruct (f x) as [y|e] eqn:E; [|discriminate].
    destruct (traverse f l) as [ys'|e]; [|discriminate].
    inversion H; subst. constructor; eauto.
Qed.

(** The loop pairs the title of each row with the poster fetched for the
    same row. *)
Lemma collect_rows (idxs : list Z) :
  forall ms ps ms' ps',
    collect df http idxs ms ps = Ok (ms', ps') ->
    exists rows posters,
      traverse (iloc df) idxs = Ok rows /\
      traverse (fun r => fetch_poster http (Pandas.movie_id r)) rows
      = Ok posters /\
      ms' = ms ++ map Pandas.title rows /\
      ps' = ps ++ posters.
Proof.
  induction idxs as [|i idxs IH]; intros ms ps ms' ps' H; simpl in H.
  - inversion H; subst. exists [], []. simpl. now rewrite !app_nil_r.
  - simpl. destruct (iloc df i) as [r|e]; simpl in H; [|discriminate].
    destruct (fetch_poster http (Pandas.movie_id r)) as [p|e] eqn:Ep;
      simpl in H; [|discriminate].
    apply IH in H. destruct H as [rows [posters [Ht [Hp [Hm Hps]]]]].
    exists (r :: rows), (p :: posters). rewrite Ht. simpl. rewrite Ep, Hp.
    repeat split; [rewrite Hm|rewrite Hps]; now rewrite <- app_assoc.
Qed.

(** With rows to be found and posters to be had, the loop goes through. *)
Lemma collect_total (idxs : list Z) :
  Forall (fun i => exists r, iloc df i = Ok r) idxs ->
  (forall id, exists p, fetch_poster http id = Ok p) ->
  forall ms ps, exists ms' ps', collect df http idxs ms ps = Ok (ms', ps').
Proof.
  intros Hrows Hposter. induction Hrows as [|i idxs [r Hr] _ IH];
    intros ms ps; simpl.
  - eauto.
  - rewrite Hr. simpl. destruct (Hposter (Pandas.movie_id r)) as [p Hp].
    rewrite Hp. simpl. apply IH.
Qed.

End RecommendRows.

(** X5. Whatever index it is given, [recommend] returns titles of rows of
    the frame, and the poster at each place is the one fetched for the
    movie whose title stands at that place. *)
Theorem recommend_pairs_rows :
  forall (movie : string) (df : DataFrame) (index : Index) (http : Http)
         (k : nat) (log : list exn),
  exists rows posters,
    Forall (fun r => In r (map snd df)) rows /\
    traverse (fun r => fetch_poster http (Pandas.movie_id r)) rows
    = Ok posters /\
    fst (recommend movie df index http k log)
    = Ok (map Pandas.title rows, posters).
Proof.
  intros movie df index http k log. unfold recommend.
  destruct (recommend_try movie df index http k) as [[ms ps]|e] eqn:E;
    [|exists [], []; simpl; auto].
  unfold recommend_try in E.
  destruct (title_index df movie) as [|self rest].
  { inversion E; subst. exists [], []. simpl. auto. }
  destruct (reconstruct index self) as [q|e]; simpl in E; [|discriminate].
  destruct (search index q (k + 1)) as [hits|e]; simpl in E; [|discriminate].
  apply collect_rows in E.
  destruct E as [rows [posters [Hrows [Hposters [Hm Hp]]]]].
  simpl in Hm, Hp. subst ms ps. exists rows, posters.
  split; [|split; [exact Hposters|reflexivity]].
  eapply traverse_Forall; [|exact Hrows]. intros i r. apply iloc_In.
Qed.

Section ConsistentCorpus.

Lemma label_at_position (df : DataFrame) (j : nat) (p : Z * movie_row) :
  AppUi.labels_are_positions df ->
  nth_error df j = Some p -> fst p = Z.of_nat j.
Proof.
  unfold AppUi.labels_are_positions. intros Hl Hj.
  assert (H : nth_error (map fst df) j = Some (fst p))
    by (rewrite nth_error_map, Hj; reflexivity).
  rewrite Hl, nth_error_map in H.
  assert (Hlt : j < length df) by (apply nth_error_Some; congruence).
  rewrite nth_error_seq in H.
  destruct (Nat.ltb_spec j (length df)); [|lia].
  simpl in H. now inversion H.
Qed.

Lemma iloc_position (df : DataFrame) (j : nat) (p : Z * movie_row) :
  nth_error df j = Some p -> iloc df (Z.of_nat j) = Ok (snd p).
Proof.
  intros Hj. unfold iloc.
  assert (Hlt : j < length df) by (apply nth_error_Some; congruence).
  destruct (Z.ltb_spec (Z.of_nat j) 0); [lia|].
  destruct (Z.leb_spec 0 (Z.of_nat j)); [|lia].
  destruct (Z.ltb_spec (Z.of_nat j) (Z.of_nat (length df))); [|lia].
  simpl. now rewrite Nat2Z.id, Hj.
Qed.

(** [iloc[-1]] on a frame that has a row is its last row. *)
Lemma iloc_minus_one (df : DataFrame) :
  df <> [] -> exists r, iloc df (-1) = Ok r.
Proof.
  intros Hne. unfold iloc.
  assert (Hlen : 0 < length df) by (destruct df; [contradiction|simpl; lia]).
  replace (-1 <? 0)%Z with true by reflexivity.
  destruct (Z.leb_spec 0 (Z.of_nat (length df) + -1)); [|lia].
  destruct (Z.ltb_spec (Z.of_nat (length df) + -1) (Z.of_nat (length df)));
    [|lia].
  simpl.
  destruct (nth_error df (Z.to_nat (Z.of_nat (length df) + -1))) as [p|] eqn:E.
  - eauto.
  - apply nth_error_None in E. lia.
Qed.

Lemma iloc_in_range (df : DataFrame) (i : Z) :
  (0 <= i < Z.of_nat (length df))%Z -> exists r, iloc df i = Ok r.
Proof.
  intros Hi.
  destruct (nth_error df (Z.to_nat i)) as [p|] eqn:E.
  - exists (snd p). rewrite <- (Z2Nat.id i) by lia. now apply iloc_position.
  - apply nth_error_None in E. lia.
Qed.

(** The first label carrying a title, and where it sits. *)
Lemma title_index_first (df : DataFrame) (movie : string) :
  In movie (AppUi.titles df) ->
  exists j p rest,
    nth_error df j = Some p /\
    Pandas.title (snd p) = movie /\
    (forall j' p', j' < j -> nth_error df j' = Some p' ->
                   Pandas.title (snd p') <> movie) /\
    title_index df movie = fst p :: rest.
Proof.
  unfold AppUi.titles, title_index.
  induction df as [|p df IH]; simpl; [tauto|]. intros Hin.
  destruct (String.eqb_spec (Pandas.title (snd p)) movie) as [E|E].
  - exists 0, p. eexists. simpl. repeat split; auto. intros j' p' Hj. lia.
  - destruct Hin as [Hin|Hin]; [contradiction|].
    destruct (IH Hin) as [j [q [rest [Hj [Hq [Hfirst Hidx]]]]]].
    exists (S j), q, rest. simpl. repeat split; auto.
    intros [|j'] p' Hlt Hp'; simpl in Hp'.
    + inversion Hp'; subst. exact E.
    + apply (Hfirst j'); [lia|exact Hp'].
Qed.

Lemma flat_reconstruct_position (xb : list vec) (j : nat) (v : vec) :
  nth_error xb j = Some v -> flat_reconstruct xb (Z.of_nat j) = Ok v.
Proof.
  intros Hj. unfold flat_reconstruct.
  assert (Hlt : j < length xb) by (apply nth_error_Some; congruence).
  destruct (Z.leb_spec 0 (Z.of_nat j)); [|lia].
  destruct (Z.ltb_spec (Z.of_nat j) (Z.of_nat (length xb))); [|lia].
  simpl. now rewrite Nat2Z.id, Hj.
Qed.

Lemma fetch_poster_total (http : Http) :
  AppUi.no_stray_exception http ->
  forall id, exists p, fetch_poster http id = Ok p.
Proof.
  intros H id. unfold fetch_poster. apply fetch_poster_attempts_total.
  intros i e _. apply H.
Qed.

End ConsistentCorpus.

(** X6. On a corpus whose frame and index agree (labels are the row
    positions, one stored vector per row) and with a network that only
    fails or answers, [recommend] on a known title goes through its [try]
    block: nothing is reported, and it returns exactly [k] titles and [k]
    posters. *)
Theorem recommend_on_consistent_corpus :
  forall (t : TieOrder) (xb : list vec) (df : DataFrame) (http : Http)
         (movie : string) (k : nat) (log : list exn),
    AppUi.labels_are_positions df ->
    length xb = length df ->
    AppUi.no_stray_exception http ->
    In movie (AppUi.titles df) ->
    exists titles posters,
      recommend movie df (IndexFlatIP t xb) http k log
      = (Ok (titles, posters), log) /\
      length titles = k /\ length posters = k.
Proof.
  intros t xb df http movie k log Hlabels Hlen Hhttp Hin.
  destruct (@title_index_first df movie Hin)
    as [j [p [rest [Hj [_ [_ Hidx]]]]]].
  rewrite (@label_at_position df j p Hlabels Hj) in Hidx.
  assert (Hjlt : j < length xb)
    by (rewrite Hlen; apply nth_error_Some; congruence).
  destruct (nth_error xb j) as [v|] eqn:Hv;
    [|apply nth_error_None in Hv; lia].
  assert (Hne : df <> []) by (intros ->; destruct j; discriminate).
  assert (Hrun : exists ms ps,
             collect df http
                     (recommended_indices k (flat_search t xb v (k + 1)))
                     [] [] = Ok (ms, ps)).
  { apply collect_total; [|now apply fetch_poster_total].
    apply Forall_forall. intros i Hi.
    unfold recommended_indices in Hi. rewrite slice_one_tl in Hi.
    apply firstn_In in Hi.
    assert (Hi' : In i (flat_search t xb v (k + 1)))
      by (destruct (flat_search t xb v (k + 1)); [contradiction|now right]).
    pose proof (proj1 (Forall_forall _ _) (flat_search_range t xb v (k + 1))
                      i Hi') as [->|Hr].
    - now apply iloc_minus_one.
    - apply iloc_in_range. lia. }
  destruct Hrun as [ms [ps Hrun]].
  exists ms, ps. unfold recommend, recommend_try. rewrite Hidx. simpl.
  rewrite (@flat_reconstruct_position xb j v Hv). simpl. rewrite Hrun.
  split; [reflexivity|].
  apply collect_lengths in Hrun. simpl in Hrun.
  rewrite recommended_indices_exact in Hrun by apply flat_search_length.
  lia.
Qed.

Lemma recommend_on_consistent_corpus_witness :
  exists titles posters,
    recommend "A" Samples.df3 (IndexFlatIP LowIdFirst Samples.xb3)
              Samples.offline 2 []
    = (Ok (titles, posters), []) /\
    length titles = 2 /\ length posters = 2.
Proof.
  apply recommend_on_consistent_corpus.
  - reflexivity.
  - reflexivity.
  - intros id i e. discriminate.
  - simpl. auto.
Defined.

Lemma traverse_In_inv (A B : Type) (f : A -> result B) (l : list A) :
  forall ys y,
    traverse f l = Ok ys -> In y ys -> exists x, In x l /\ f x = Ok y.
Proof.
  induction l as [|x l IH]; simpl; intros ys y H Hy.
  - inversion H; subst. contradiction.
  - destruct (f x) as [y0|e] eqn:E; [|discriminate].
    destruct (traverse f l) as [ys'|e]; [|discriminate].
    inversion H; subst. destruct Hy as [->|Hy].
    + exists x. auto.
    + destruct (IH ys' y eq_refl Hy) as [x' [Hx' Hf]]. exists x'. auto.
Qed.

Lemma title_position_unique (df : DataFrame) (i j : nat)
      (p q : Z * movie_row) :
  NoDup (AppUi.titles df) ->
  nth_error df i = Some p -> nth_error df j = Some q ->
  Pandas.title (snd p) = Pandas.title (snd q) -> i = j.
Proof.
  intros Hnd Hi Hj Ht.
  apply (proj1 (NoDup_nth_error (AppUi.titles df)) Hnd).
  - unfold AppUi.titles. rewrite length_map.
    apply nth_error_Some. congruence.
  - unfold AppUi.titles. rewrite !nth_error_map, Hi, Hj. simpl.
    now rewrite Ht.
Qed.

(** X7. What keeps the query out of its own recommendations is the
    index, not [recommend]: for any index object, when the frame is
    labelled by row position with distinct titles and every label after
    the first of the search result is a row position other than the
    query's own (no padding, no second mention of the query), the queried
    title is not among the titles returned. *)
Theorem recommend_excludes_query :
  forall (index : Index) (df : DataFrame) (http : Http)
         (movie : string) (k s : nat) (p : Z * movie_row) (v : vec)
         (hits : list Z),
    AppUi.labels_are_positions df ->
    NoDup (AppUi.titles df) ->
    nth_error df s = Some p ->
    Pandas.title (snd p) = movie ->
    reconstruct index (Z.of_nat s) = Ok v ->
    search index v (k + 1) = Ok hits ->
    Forall (fun i => (0 <= i < Z.of_nat (length df))%Z /\ i <> Z.of_nat s)
           (tl hits) ->
    forall (log : list exn) titles posters,
      fst (recommend movie df index http k log) = Ok (titles, posters) ->
      ~ In movie titles.
Proof.
  intros index df http movie k s p v hits Hlabels Hnd Hs Hp Hv Hsearch Hhits
         log titles posters Hres Hin.
  assert (Hdf : In movie (AppUi.titles df)).
  { unfold AppUi.titles. apply in_map_iff. exists p. split; [exact Hp|].
    eapply nth_error_In; eauto. }
  destruct (@title_index_first df movie Hdf)
    as [j [p' [rest [Hj [Hp' [_ Hidx]]]]]].
  assert (j = s)
    by (apply (@title_position_unique df j s p' p Hnd Hj Hs); congruence).
  subst j. rewrite (@label_at_position df s p' Hlabels Hj) in Hidx.
  unfold recommend in Hres.
  destruct (recommend_try movie df index http k)
    as [[ms ps]|e] eqn:E; simpl in Hres; inversion Hres; subst;
    [|contradiction].
  unfold recommend_try in E. rewrite Hidx, Hv in E. simpl in E.
  rewrite Hsearch in E. simpl in E.
  apply collect_titles in E. destruct E as [rows [Hrows Ht]].
  simpl in Ht. subst titles.
  apply in_map_iff in Hin. destruct Hin as [r [Hr Hin]].
  destruct (@traverse_In_inv _ _ _ _ _ _ Hrows Hin) as [idx [Hidxin Hiloc]].
  unfold recommended_indices in Hidxin. rewrite slice_one_tl in Hidxin.
  apply firstn_In in Hidxin.
  destruct (proj1 (Forall_forall _ _) Hhits idx Hidxin) as [Hrange Hne].
  assert (Hpos : idx = Z.of_nat (Z.to_nat idx)) by lia.
  destruct (nth_error df (Z.to_nat idx)) as [pj|] eqn:Hpj;
    [|apply nth_error_None in Hpj; lia].
  rewrite Hpos, (@iloc_position df (Z.to_nat idx) pj Hpj) in Hiloc.
  inversion Hiloc; subst r.
  apply Hne. rewrite Hpos. f_equal.
  apply (@title_position_unique df (Z.to_nat idx) s pj p Hnd Hpj Hs).
  congruence.
Qed.

Lemma recommend_excludes_query_witness :
  fst (recommend "C" Samples.df3 (IndexFlatIP LowIdFirst Samples.xb3)
         Samples.offline 2 [])
  = Ok (["B"; "A"]%string, [None; None]) /\
  ~ In "C"%string ["B"; "A"]%string.
Proof.
  split; [reflexivity|].
  apply (@recommend_excludes_query (IndexFlatIP LowIdFirst Samples.xb3)
           Samples.df3 Samples.offline "C" 2 2 (2%Z, Samples.row 13 "C")
           [0 # 1; 1 # 1]%Q [2; 1; 0]%Z)
    with (log := []) (posters := [None; None]).
  - reflexivity.
  - repeat constructor; simpl; intuition discriminate.
  - reflexivity.
  - reflexivity.
  - reflexivity.
  - reflexivity.
  - repeat constructor; simpl; try lia; discriminate.
  - reflexivity.
Defined.

(** X8. Duplicate titles resolve to their first occurrence: the vector
    that is queried is the one stored under the label of the first row
    carrying the title, whatever rows follow it. *)
Theorem recommend_first_match :
  forall (movie : string) (pre post : DataFrame) (label : Z)
         (r : movie_row) (index : Index) (http : Http) (k : nat),
    Pandas.title r = movie ->
    ~ In movie (AppUi.titles pre) ->
    recommend_try movie (pre ++ (label, r) :: post) index http k
    = (query_vector <- reconstruct index label ;;
       hits <- search index query_vector (k + 1) ;;
       collect (pre ++ (label, r) :: post) http
               (recommended_indices k hits) [] []).
Proof.
  intros movie pre post label r index http k Hr Hpre.
  unfold recommend_try.
  assert (H : title_index (pre ++ (label, r) :: post) movie
              = label :: title_index post movie).
  { unfold title_index. rewrite filter_app, map_app.
    fold (title_index pre movie).
    rewrite (title_index_absent pre movie Hpre). simpl.
    rewrite Hr, String.eqb_refl. reflexivity. }
  now rewrite H.
Qed.

Lemma recommend_first_match_witness :
  recommend_try "A" Samples.df_twice
                (IndexFlatIP LowIdFirst Samples.xb_twice) Samples.offline 1
  = (query_vector <- reconstruct (IndexFlatIP LowIdFirst Samples.xb_twice) 0 ;;
     hits <- search (IndexFlatIP LowIdFirst Samples.xb_twice)
                    query_vector (1 + 1) ;;
     collect Samples.df_twice Samples.offline
             (recommended_indices 1 hits) [] []).
Proof.
  apply (@recommend_first_match "A" [] [(1%Z, Samples.row 21 "A");
                                        (2%Z, Samples.row 22 "B")]
           0%Z (Samples.row 21 "A")).
  - reflexivity.
  - simpl. tauto.
Defined.

(** * The page *)

Section PageFacts.

Variable names : list string.
Variable posters : list (option string).

Lemma item_in_range (A : Type) (l : list A) (i : nat) :
  i < length l -> exists x, AppUi.item l i = Ok x.
Proof.
  intros H. unfold AppUi.item.
  destruct (nth_error l i) eqn:E; [eauto|].
  apply nth_error_None in E. lia.
Qed.

Lemma item_out_of_range (A : Type) (l : list A) (i : nat) :
  length l <= i -> AppUi.item l i = Raise IndexError.
Proof.
  intros H. unfold AppUi.item.
  destruct (nth_error l i) eqn:E; [|reflexivity].
  assert (i < length l) by (apply nth_error_Some; congruence). lia.
Qed.

(** The loop over the columns ends well when every column has a name and
    a poster slot, and with an [IndexError] otherwise. *)
Lemma show_cards_outcome (idxs : list nat) :
  (Forall (fun i => i < length names /\ i < length posters) idxs /\
   snd (AppUi.show_cards names posters idxs) = Ok tt /\
   length (fst (AppUi.show_cards names posters idxs)) = 2 * length idxs)
  \/
  (Exists (fun i => length names <= i \/ length posters <= i) idxs /\
   snd (AppUi.show_cards names posters idxs) = Raise IndexError).
Proof.
  induction idxs as [|i idxs IH]; simpl.
  - left. repeat split. constructor.
  - destruct (Nat.lt_ge_cases i (length names)) as [Hn|Hn].
    + destruct (item_in_range names Hn) as [name ->].
      destruct (Nat.lt_ge_cases i (length posters)) as [Hp|Hp].
      * destruct (item_in_range posters Hp) as [poster ->].
        destruct (AppUi.show_cards names posters idxs) as [events outcome].
        simpl in *. destruct IH as [[Hall [Hok Hlen]]|[Hex Hraise]].
        -- left. repeat split; auto. lia.
        -- right. split; auto.
      * rewrite (item_out_of_range posters Hp). simpl.
        right. split; auto.
    + rewrite (item_out_of_range names Hn). simpl. right. split; auto.
Qed.

End PageFacts.

(** The three ways the page can come out. *)
Lemma show_recommendations_cases :
  forall (names : list string) (posters : list (option string)),
    length names = length posters ->
    (names = [] ->
     AppUi.show_recommendations names posters = ([AppUi.StWarning], Ok tt))
    /\
    (5 <= length names ->
     exists cards,
       AppUi.show_recommendations names posters
       = (AppUi.StSuccess :: AppUi.StWrite :: cards, Ok tt) /\
       length cards = 10)
    /\
    (0 < length names < 5 ->
     snd (AppUi.show_recommendations names posters) = Raise IndexError).
Proof.
  intros names posters Hlen. split; [|split].
  - intros ->. reflexivity.
  - intros H5. unfold AppUi.show_recommendations.
    destruct names as [|n names']; [simpl in H5; lia|].
    destruct (show_cards_outcome (n :: names') posters (seq 0 5))
      as [[_ [Hok Hl]]|[Hex _]].
    + destruct (AppUi.show_cards (n :: names') posters (seq 0 5))
        as [events outcome]. simpl in Hok, Hl. subst outcome.
      exists events. split; [reflexivity|exact Hl].
    + exfalso. apply Exists_exists in Hex.
      destruct Hex as [i [Hi Hout]]. apply in_seq in Hi. lia.
  - intros Hfew. unfold AppUi.show_recommendations.
    destruct names as [|n names']; [simpl in Hfew; lia|].
    destruct (show_cards_outcome (n :: names') posters (seq 0 5))
      as [[Hall _]|[_ Hraise]].
    + exfalso. pose proof (proj1 (Forall_forall _ _) Hall 4) as H4.
      assert (In 4 (seq 0 5)) by (apply in_seq; lia). apply H4 in H. lia.
    + destruct (AppUi.show_cards (n :: names') posters (seq 0 5)).
      exact Hraise.
Qed.

(** X9. The page after a click: with no name it shows the warning; with
    five names or more (and as many posters) it shows the success banner
    and five cards, a title and a poster or placeholder each; with one to
    four names the loop over the five columns raises [IndexError]. *)
Theorem show_recommendations_outcome :
  forall (names : list string) (posters : list (option string)),
    length names = length posters ->
    (names = [] ->
     AppUi.show_recommendations names posters = ([AppUi.StWarning], Ok tt))
    /\
    (5 <= length names ->
     exists cards,
       AppUi.show_recommendations names posters
       = (AppUi.StSuccess :: AppUi.StWrite :: cards, Ok tt) /\
       length cards = 10)
    /\
    (0 < length names < 5 ->
     snd (AppUi.show_recommendations names posters) = Raise IndexError).
Proof.
  exact show_recommendations_cases.
Qed.

Lemma show_recommendations_outcome_witness :
  snd (AppUi.show_recommendations ["B"; "A"]%string [None; None])
  = Raise IndexError.
Proof.
  apply (show_recommendations_outcome ["B"; "A"]%string [None; None]).
  - reflexivity.
  - simpl. lia.
Defined.

(** With the flat index every answer of [recommend] is empty or full. *)
Lemma recommend_flat_lengths (t : TieOrder) (xb : list vec)
      (movie : string) (df : DataFrame) (http : Http) (k : nat)
      (log : list exn) :
  exists names posters log',
    recommend movie df (IndexFlatIP t xb) http k log
    = (Ok (names, posters), log') /\
    length names = length posters /\
    (names = [] \/ length names = k).
Proof.
  unfold recommend.
  destruct (recommend_try movie df (IndexFlatIP t xb) http k)
    as [[ms ps]|e] eqn:E.
  2:{ exists [], [], (log ++ [e]). auto. }
  exists ms, ps, log. split; [reflexivity|].
  unfold recommend_try in E.
  destruct (title_index df movie) as [|self rest].
  { inversion E; subst. auto. }
  simpl in E.
  destruct (flat_reconstruct xb self) as [v|e]; simpl in E; [|discriminate].
  apply collect_lengths in E. simpl in E.
  rewrite recommended_indices_exact in E by apply flat_search_length.
  split; [lia|]. right. lia.
Qed.

(** X10. With a flat inner-product index behind it, the click handler of
    [main] never fails on its five columns: whatever the frame, the stored
    vectors, the selected title and the network, it shows either the
    warning or the banner and five cards. *)
Theorem on_recommend_button_never_fails :
  forall (t : TieOrder) (xb : list vec) (selected_movie : string)
         (movies : DataFrame) (http : Http) (log : list exn),
  exists log' events,
    AppUi.on_recommend_button selected_movie movies (IndexFlatIP t xb)
                              http log
    = (log', events, Ok tt) /\
    (events = [AppUi.StWarning] \/
     exists cards,
       events = AppUi.StSuccess :: AppUi.StWrite :: cards /\
       length cards = 10).
Proof.
  intros t xb selected_movie movies http log.
  unfold AppUi.on_recommend_button.
  destruct (recommend_flat_lengths t xb selected_movie movies http 5 log)
    as [names [posters [log' [-> [Hlen Hfull]]]]].
  destruct (show_recommendations_cases names posters Hlen)
    as [Hnone [Hfive _]].
  destruct Hfull as [->|H5].
  - rewrite (Hnone eq_refl). exists log', [AppUi.StWarning]. auto.
  - destruct Hfive as [cards [-> Hcards]]; [lia|].
    exists log'. eexists. split; [reflexivity|]. right. eauto.
Qed.

(** * Words, case and order in the tag string *)

Section WordFacts.

Lemma is_space_lower_char (c : ascii) :
  is_space (lower_char c) = is_space c.
Proof.
  destruct c as [[|] [|] [|] [|] [|] [|] [|] [|]]; reflexivity.
Qed.

Lemma lower_char_idempotent (c : ascii) :
  lower_char (lower_char c) = lower_char c.
Proof.
  destruct c as [[|] [|] [|] [|] [|] [|] [|] [|]]; reflexivity.
Qed.

Lemma lower_idempotent (s : string) : lower (lower s) = lower s.
Proof.
  induction s as [|c s IH]; simpl; [reflexivity|].
  now rewrite lower_char_idempotent, IH.
Qed.

Lemma lower_append (a b : string) :
  lower (a ++ b) = (lower a ++ lower b)%string.
Proof.
  induction a as [|c a IH]; simpl; [reflexivity|]. now rewrite IH.
Qed.

Lemma lower_join (l : list string) :
  lower (join l) = join (map lower l).
Proof.
  unfold join. induction l as [|w l IH]; simpl; [reflexivity|].
  destruct l as [|w' l]; [reflexivity|].
  simpl in *. rewrite lower_append. simpl. now rewrite <- IH.
Qed.

Lemma no_space_lower (w : string) :
  Words.no_space (lower w) = Words.no_space w.
Proof.
  unfold Words.no_space. induction w as [|c w IH]; simpl; [reflexivity|].
  now rewrite is_space_lower_char, IH.
Qed.

Lemma is_word_lower (w : string) :
  Words.is_word (lower w) = Words.is_word w.
Proof.
  unfold Words.is_word. rewrite no_space_lower.
  destruct w; reflexivity.
Qed.

Lemma append_empty_r (s : string) : (s ++ "")%string = s.
Proof.
  induction s as [|c s IH]; simpl; [reflexivity|]. now rewrite IH.
Qed.

Lemma append_assoc (a b c : string) :
  ((a ++ b) ++ c)%string = (a ++ (b ++ c))%string.
Proof.
  induction a as [|x a IH]; simpl; [reflexivity|]. now rewrite IH.
Qed.

(** Reading a run of non-space characters only grows the current word. *)
Lemma split_from_word (w : string) :
  forall (cur rest : string),
    Words.no_space w = true ->
    split_from cur (w ++ rest) = split_from (cur ++ w) rest.
Proof.
  unfold Words.no_space.
  induction w as [|c w IH]; intros cur rest Hw; simpl.
  - now rewrite append_empty_r.
  - simpl in Hw. apply andb_true_iff in Hw. destruct Hw as [Hc Hw].
    apply negb_true_iff in Hc. rewrite Hc, IH by exact Hw.
    now rewrite append_assoc.
Qed.

Lemma flush_word (w : string) (l : list string) :
  Words.is_word w = true -> flush w l = w :: l.
Proof.
  unfold Words.is_word, flush. intros H.
  apply andb_true_iff in H. destruct H as [H _].
  apply negb_true_iff in H. now rewrite H.
Qed.

(** Round trip: joining words with single spaces and splitting again gives
    the words back. *)
Lemma split_join (l : list string) :
  Forall (fun w => Words.is_word w = true) l -> split (join l) = l.
Proof.
  unfold split, join. induction 1 as [|w l Hw Hl IH]; [reflexivity|].
  assert (Hns : Words.no_space w = true)
    by (unfold Words.is_word in Hw; apply andb_true_iff in Hw; tauto).
  destruct l as [|w' l].
  - simpl. rewrite <- (append_empty_r w) at 1.
    rewrite split_from_word by exact Hns. simpl. now apply flush_word.
  - change (String.concat " " (w :: w' :: l))
      with (w ++ String " " (String.concat " " (w' :: l)))%string.
    rewrite split_from_word by exact Hns.
    change (split_from ("" ++ w) (String " " (String.concat " " (w' :: l))))
      with (flush w (split_from "" (String.concat " " (w' :: l)))).
    rewrite flush_word by exact Hw. now rewrite IH.
Qed.

(** What [split] returns are words. *)
Lemma split_from_words (s : string) :
  forall cur,
    Words.no_space cur = true ->
    Forall (fun w => Words.is_word w = true) (split_from cur s).
Proof.
  induction s as [|c s IH]; intros cur Hcur; simpl.
  - unfold flush. destruct (String.eqb_spec cur ""); [constructor|].
    constructor; [|constructor]. unfold Words.is_word.
    rewrite Hcur. destruct cur; [contradiction|reflexivity].
  - destruct (is_space c) eqn:Ec.
    + unfold flush. destruct (String.eqb_spec cur "").
      * apply IH. reflexivity.
      * constructor; [|apply IH; reflexivity]. unfold Words.is_word.
        rewrite Hcur. destruct cur; [contradiction|reflexivity].
    + apply IH. unfold Words.no_space in *.
      assert (H : list_ascii_of_string (cur ++ String c "")
                  = list_ascii_of_string cur ++ [c]).
      { clear. induction cur as [|x cur IHc]; simpl; [reflexivity|].
        now rewrite IHc. }
      rewrite H, forallb_app, Hcur. simpl. now rewrite Ec.
Qed.

Lemma split_words (s : string) :
  Forall (fun w => Words.is_word w = true) (split s).
Proof.
  apply split_from_words. reflexivity.
Qed.

End WordFacts.

Lemma lower_char_ascii (c : ascii) :
  (N_of_ascii (lower_char c) <? 128)%N = (N_of_ascii c <? 128)%N.
Proof.
  destruct c as [[|] [|] [|] [|] [|] [|] [|] [|]]; reflexivity.
Qed.

Lemma is_ascii_lower (s : string) :
  Words.is_ascii (lower s) = Words.is_ascii s.
Proof.
  unfold Words.is_ascii. induction s as [|c s IH]; simpl; [reflexivity|].
  now rewrite lower_char_ascii, IH.
Qed.

Lemma is_ascii_append (a b : string) :
  Words.is_ascii (a ++ b) = Words.is_ascii a && Words.is_ascii b.
Proof.
  unfold Words.is_ascii. induction a as [|c a IH]; simpl; [reflexivity|].
  now rewrite IH, andb_assoc.
Qed.

Lemma is_ascii_join (l : list string) :
  Forall (fun w => Words.is_ascii w = true) l ->
  Words.is_ascii (join l) = true.
Proof.
  unfold join. induction 1 as [|w l Hw Hl IH]; [reflexivity|].
  destruct l as [|w' l]; [exact Hw|].
  change (String.concat " " (w :: w' :: l))
    with (w ++ String " " (String.concat " " (w' :: l)))%string.
  rewrite is_ascii_append, Hw. exact IH.
Qed.

(** [split] cuts an ASCII string into ASCII words. *)
Lemma split_from_ascii (s : string) :
  forall cur,
    Words.is_ascii cur = true -> Words.is_ascii s = true ->
    Forall (fun w => Words.is_ascii w = true) (split_from cur s).
Proof.
  induction s as [|c s IH]; intros cur Hcur Hs; simpl.
  - unfold flush. destruct (String.eqb cur ""); repeat constructor.
    exact Hcur.
  - unfold Words.is_ascii in Hs. simpl in Hs.
    apply andb_true_iff in Hs. destruct Hs as [Hc Hs].
    destruct (is_space c).
    + unfold flush. destruct (String.eqb cur "").
      * now apply IH.
      * constructor; [exact Hcur|]. now apply IH.
    + apply IH; [|exact Hs].
      rewrite is_ascii_append, Hcur. unfold Words.is_ascii. simpl.
      now rewrite Hc.
Qed.

Lemma split_ascii (s : string) :
  Words.is_ascii s = true ->
  Forall (fun w => Words.is_ascii w = true) (split s).
Proof.
  intros H. now apply split_from_ascii.
Qed.

(** X11. The words of a tag string, for ASCII text. When the overview
    and the names of a record are ASCII, the names are words, and the
    stemmer maps ASCII words to ASCII words, the tag string splits into
    exactly the lower-cased, stemmed tokens of the record, in the order
    overview, genres, keywords, cast, crew, one word per token; it is
    normalised (single spaces, none at the ends) and ASCII again. *)
Theorem tag_words :
  forall (self : Updater.MovieDataUpdater) (overview : Updater.pyval)
         (g kw c cr : list string),
    Words.stems_ascii_words (Updater.ps self) ->
    (forall s, overview = Updater.PyStr s -> Words.is_ascii s = true) ->
    Forall (fun w => Words.is_ascii w = true /\ Words.is_word w = true)
           (g ++ kw ++ c ++ cr) ->
    let tags := Updater.make_tags self (Updater.overview_tokens overview)
                                  g kw c cr in
    split tags
    = map (fun w => Updater.ps self (lower w))
          (Updater.overview_tokens overview ++ g ++ kw ++ c ++ cr)
    /\ join (split tags) = tags
    /\ Words.is_ascii tags = true.
Proof.
  intros self overview g kw c cr Hps Hov Hnames tags.
  set (tokens := Updater.overview_tokens overview ++ g ++ kw ++ c ++ cr).
  assert (Hall : Forall (fun w => Words.is_ascii w = true /\
                                  Words.is_word w = true) tokens).
  { apply Forall_app. split; [|exact Hnames].
    destruct overview as [| | |s|]; simpl; try constructor.
    specialize (Hov s eq_refl).
    pose proof (split_ascii s Hov) as Ha.
    pose proof (split_words s) as Hw.
    apply Forall_forall. intros w Hin. split.
    - exact (proj1 (Forall_forall _ _) Ha w Hin).
    - exact (proj1 (Forall_forall _ _) Hw w Hin). }
  assert (Hlow : Forall (fun w => Words.is_ascii w = true /\
                                  Words.is_word w = true)
                        (map lower tokens)).
  { apply Forall_forall. intros w Hw. apply in_map_iff in Hw.
    destruct Hw as [w0 [<- Hw0]]. rewrite is_ascii_lower, is_word_lower.
    exact (proj1 (Forall_forall _ _) Hall w0 Hw0). }
  assert (Hlow_words : Forall (fun w => Words.is_word w = true)
                              (map lower tokens))
    by (eapply Forall_impl; [|exact Hlow]; intros w Hw; apply Hw).
  assert (Hstems : Forall (fun w => Words.is_ascii w = true /\
                                    Words.is_word w = true)
                          (map (Updater.ps self) (map lower tokens))).
  { apply Forall_forall. intros w Hw. apply in_map_iff in Hw.
    destruct Hw as [w0 [<- Hw0]].
    destruct (proj1 (Forall_forall _ _) Hlow w0 Hw0) as [Ha Hword].
    now apply Hps. }
  assert (Htags : tags = join (map (Updater.ps self) (map lower tokens))).
  { unfold tags, Updater.make_tags, Updater.stem. fold tokens.
    now rewrite lower_join, split_join by exact Hlow_words. }
  assert (Hsplit : split tags = map (Updater.ps self) (map lower tokens)).
  { rewrite Htags. apply split_join.
    eapply Forall_impl; [|exact Hstems]. intros w Hw. apply Hw. }
  split; [rewrite Hsplit; now rewrite map_map|].
  split; [rewrite Hsplit; now rewrite Htags|].
  rewrite Htags. apply is_ascii_join.
  eapply Forall_impl; [|exact Hstems]. intros w Hw. apply Hw.
Qed.

Lemma tag_words_witness :
  split (Updater.make_tags UpdaterSpec.identity_stemmer
           (Updater.overview_tokens (Updater.PyStr "Cops  and robbers"))
           ["Action"; "Crime"]%string [] ["AlPacino"]%string [])
  = ["cops"; "and"; "robbers"; "action"; "crime"; "alpacino"]%string.
Proof.
  apply (@tag_words UpdaterSpec.identity_stemmer
           (Updater.PyStr "Cops  and robbers")
           ["Action"; "Crime"]%string [] ["AlPacino"]%string []).
  - intros w Ha Hw. split; [exact Ha|exact Hw].
  - intros s Hs. injection Hs as <-. reflexivity.
  - repeat constructor.
Defined.

(** X12. Letter case does not matter: the tag string made from tokens is
    the one made from their lower-cased forms. *)
Theorem tags_ignore_case :
  forall (self : Updater.MovieDataUpdater) (ov g kw c cr : list string),
    Updater.make_tags self (map lower ov) (map lower g) (map lower kw)
                      (map lower c) (map lower cr)
    = Updater.make_tags self ov g kw c cr.
Proof.
  intros self ov g kw c cr. unfold Updater.make_tags.
  rewrite <- !map_app, <- lower_join. now rewrite lower_idempotent.
Qed.

Lemma remove_spaces_no_space (s : string) :
  (forall c, In c (list_ascii_of_string s) -> is_space c = true ->
             c = " "%char) ->
  Words.no_space (remove_spaces s) = true.
Proof.
  unfold Words.no_space. induction s as [|c s IH]; intros H; simpl.
  - reflexivity.
  - destruct (Ascii.eqb_spec c " ") as [E|E].
    + apply IH. intros c' Hc'. apply H. now right.
    + simpl. rewrite IH by (intros c' Hc'; apply H; now right).
      destruct (is_space c) eqn:Ec; [|reflexivity].
      exfalso. apply E. apply H; [now left|exact Ec].
Qed.

Lemma remove_spaces_not_empty (s : string) :
  (exists c, In c (list_ascii_of_string s) /\ c <> " "%char) ->
  remove_spaces s <> ""%string.
Proof.
  induction s as [|c s IH]; simpl; intros [c' [Hin Hne]]; [contradiction|].
  destruct (Ascii.eqb_spec c " ") as [E|E]; [|discriminate].
  apply IH. destruct Hin as [->|Hin]; [contradiction|]. eauto.
Qed.

(** X13. An ASCII name of several words becomes one word: when its only
    whitespace is the plain space and it has some other character,
    [replace(" ", "")] turns it into a single word of the tag string. *)
Theorem name_collapses_to_one_word :
  forall name : string,
    Words.is_ascii name = true ->
    (forall c, In c (list_ascii_of_string name) -> is_space c = true ->
               c = " "%char) ->
    (exists c, In c (list_ascii_of_string name) /\ c <> " "%char) ->
    Words.is_word (remove_spaces name) = true /\
    split (remove_spaces name) = [remove_spaces name].
Proof.
  intros name _ Hplain Hsome.
  assert (Hw : Words.is_word (remove_spaces name) = true).
  { unfold Words.is_word. rewrite remove_spaces_no_space by exact Hplain.
    pose proof (remove_spaces_not_empty name Hsome) as Hne.
    destruct (String.eqb_spec (remove_spaces name) ""); [contradiction|].
    reflexivity. }
  split; [exact Hw|].
  change (remove_spaces name) with (join [remove_spaces name]) at 1.
  apply split_join. now constructor.
Qed.

Lemma name_collapses_to_one_word_witness :
  Words.is_word (remove_spaces "Science Fiction") = true /\
  split (remove_spaces "Science Fiction") = [remove_spaces "Science Fiction"].
Proof.
  apply name_collapses_to_one_word.
  - reflexivity.
  - intros c Hin Hs. simpl in Hin.
    repeat (destruct Hin as [<-|Hin]; [try reflexivity; discriminate Hs|]).
    contradiction.
  - exists "S"%char. split; [now left|discriminate].
Defined.

(** * When there is nothing to vectorize *)

Section EmptyVocabulary.

Lemma analyze_all_empty (vz : Sklearn.CountVectorizer) (docs : list string) :
  Sklearn.corpus_tokens vz docs = [] <->
  forall d, In d docs -> Sklearn.analyze vz d = [].
Proof.
  unfold Sklearn.corpus_tokens. induction docs as [|d docs IH]; simpl.
  - split; [intros _ d []|reflexivity].
  - split.
    + intros H. apply app_eq_nil in H. destruct H as [Hd Hrest].
      intros d' [<-|Hin]; [exact Hd|]. now apply IH.
    + intros H. rewrite (H d) by now left. simpl.
      apply IH. intros d' Hin. apply H. now right.
Qed.

Lemma fit_fails_iff_no_token (vz : Sklearn.CountVectorizer)
      (docs : list string) :
  0 < Sklearn.max_features vz ->
  (Sklearn.fit vz docs = Raise ValueError <->
   Sklearn.corpus_tokens vz docs = []).
Proof.
  intros Hmax. unfold Sklearn.fit. split.
  - intros H.
    destruct (Sklearn.corpus_tokens vz docs) as [|t tokens] eqn:Et;
      [reflexivity|exfalso].
    destruct (Sklearn.limit_features (Sklearn.max_features vz)
                (Sklearn.Counter.elements
                   (Sklearn.count_terms (t :: tokens)))) eqn:El;
      [|discriminate].
    revert El. apply limit_features_nonempty; [exact Hmax|].
    intros Hnil.
    assert (Hin : In (t, Sklearn.occurrences t (t :: tokens))
                     (Sklearn.Counter.elements
                        (Sklearn.count_terms (t :: tokens))))
      by (apply counted_spec; split; [now left|reflexivity]).
    rewrite Hnil in Hin. contradiction.
  - intros ->. reflexivity.
Qed.

End EmptyVocabulary.

(** X14. On ASCII tag strings, building the vocabulary fails with
    [ValueError] exactly when no tag string of the frame holds a token
    that survives the analyzer (two word characters or more, not a stop
    word); in every other case a vocabulary is returned. *)
Theorem build_vocabulary_fails_iff :
  forall (porter : string -> string) (english : list string)
         (df : list (Z * Updater.tagged_movie)),
    Forall (fun r => Words.is_ascii (Updater.t_tags (snd r)) = true) df ->
    let self := Updater.init porter english in
    (Words.build_vocabulary self df = Raise ValueError <->
     forall r, In r df ->
               Sklearn.analyze (Updater.cv self) (Updater.t_tags (snd r)) = [])
    /\
    (Words.build_vocabulary self df <> Raise ValueError ->
     exists vocabulary, Words.build_vocabulary self df = Ok vocabulary).
Proof.
  intros porter english df _ self. unfold Words.build_vocabulary. split.
  - rewrite fit_fails_iff_no_token by (simpl; lia).
    rewrite analyze_all_empty. split.
    + intros H r Hr. apply H. apply in_map_iff. now exists r.
    + intros H d Hd. apply in_map_iff in Hd. destruct Hd as [r [<- Hr]].
      now apply H.
  - unfold Sklearn.fit.
    destruct (Sklearn.limit_features _ _); [intros H; now contradiction H|].
    eauto.
Qed.

Lemma build_vocabulary_fails_iff_witness :
  (Words.build_vocabulary
     (Updater.init (fun w => w) UpdaterSpec.some_stop_words)
     [(0%Z, {| Updater.t_movie_id := Updater.PyInt 7;
               Updater.t_title := Updater.PyStr "Heat";
               Updater.t_tags := "the a of" |})]
   = Raise ValueError <->
   forall r,
     In r [(0%Z, {| Updater.t_movie_id := Updater.PyInt 7;
                    Updater.t_title := Updater.PyStr "Heat";
                    Updater.t_tags := "the a of" |})] ->
     Sklearn.analyze
       (Updater.cv (Updater.init (fun w => w) UpdaterSpec.some_stop_words))
       (Updater.t_tags (snd r)) = [])
  /\
  (Words.build_vocabulary
     (Updater.init (fun w => w) UpdaterSpec.some_stop_words)
     [(0%Z, {| Updater.t_movie_id := Updater.PyInt 7;
               Updater.t_title := Updater.PyStr "Heat";
               Updater.t_tags := "the a of" |})]
   <> Raise ValueError ->
   exists vocabulary,
     Words.build_vocabulary
       (Updater.init (fun w => w) UpdaterSpec.some_stop_words)
       [(0%Z, {| Updater.t_movie_id := Updater.PyInt 7;
                 Updater.t_title := Updater.PyStr "Heat";
                 Updater.t_tags := "the a of" |})]
     = Ok vocabulary).
Proof.
  apply (@build_vocabulary_fails_iff (fun w => w) UpdaterSpec.some_stop_words
           [(0%Z, {| Updater.t_movie_id := Updater.PyInt 7;
                     Updater.t_title := Updater.PyStr "Heat";
                     Updater.t_tags := "the a of" |})]).
  repeat constructor.
Defined.

(** X15. When the frame has rows and every one has a missing cell, preprocessing
    succeeds with an empty frame and the vocabulary step then raises
    [ValueError]: the update stops there. *)
Theorem all_records_incomplete :
  forall (self : Updater.MovieDataUpdater) (df : list (Z * Updater.raw_movie)),
    0 < Sklearn.max_features (Updater.cv self) ->
    df <> [] ->
    Forall (fun r => Updater.has_na (snd r) = true) df ->
    Updater.preprocess_data self df = Ok [] /\
    Words.build_vocabulary self [] = Raise ValueError.
Proof.
  intros self df Hmax Hrows Hna.
  assert (Hdrop : Updater.dropna df = []).
  { unfold Updater.dropna. apply filter_drop_all.
    eapply Forall_impl; [|exact Hna]. intros r Hr. simpl in Hr.
    now rewrite Hr. }
  split.
  - rewrite preprocess_data_columns by exact Hrows.
    unfold Updater.process_columns. now rewrite Hdrop.
  - unfold Words.build_vocabulary.
    apply fit_fails_iff_no_token; [exact Hmax|reflexivity].
Qed.

Lemma all_records_incomplete_witness :
  Updater.preprocess_data UpdaterSpec.identity_stemmer
    [(0%Z, UpdaterSpec.action_movie Updater.PyNone)] = Ok [] /\
  Words.build_vocabulary UpdaterSpec.identity_stemmer [] = Raise ValueError.
Proof.
  apply all_records_incomplete.
  - simpl. lia.
  - discriminate.
  - repeat constructor.
Defined.

(** * Labels after preprocessing *)

Section Labels.

Lemma filter_seq_prefix (A : Type) (keep : A -> bool) (df : list (Z * A)) :
  forall a : nat,
    map fst df = map Z.of_nat (seq a (length df)) ->
    map fst (filter (fun r => keep (snd r)) df)
    = map Z.of_nat (seq a (length (filter (fun r => keep (snd r)) df))) ->
    forall i j p q,
      nth_error df i = Some p -> nth_error df j = Some q ->
      i < j -> keep (snd q) = true -> keep (snd p) = true.
Proof.
  induction df as [|r df IH]; intros a Hl Hf i j p q Hi Hj Hij Hq.
  - destruct i; discriminate.
  - simpl in Hl. injection Hl as Hr Hrest.
    simpl in Hf. destruct (keep (snd r)) eqn:Er.
    + simpl in Hf. injection Hf as _ Hf'.
      destruct i as [|i]; simpl in Hi.
      * inversion Hi; subst. exact Er.
      * destruct j as [|j]; [lia|]. simpl in Hj.
        apply (IH (S a) Hrest Hf' i j p q Hi Hj); [lia|exact Hq].
    + exfalso.
      (* the first kept label is at least a+1, yet it should be a *)
      destruct j as [|j]; [lia|]. simpl in Hj.
      assert (Hin : In q (filter (fun r => keep (snd r)) df))
        by (apply filter_In; split; [eapply nth_error_In; eauto|exact Hq]).
      destruct (filter (fun r => keep (snd r)) df) as [|q0 rest] eqn:Ef;
        [contradiction|].
      simpl in Hf. injection Hf as Hq0 _.
      assert (Hq0in : In q0 df).
      { assert (H : In q0 (filter (fun r => keep (snd r)) df))
          by (rewrite Ef; now left).
        apply filter_In in H. tauto. }
      assert (Hlab : In (fst q0) (map Z.of_nat (seq (S a) (length df))))
        by (rewrite <- Hrest; now apply in_map).
      apply in_map_iff in Hlab. destruct Hlab as [n [Hn Hseq]].
      apply in_seq in Hseq. lia.
Qed.

Lemma traverse_length (A B : Type) (f : A -> result B) (l : list A) :
  forall ys, traverse f l = Ok ys -> length ys = length l.
Proof.
  induction l as [|x l IH]; simpl; intros ys H.
  - now inversion H.
  - destruct (f x); [|discriminate].
    destruct (traverse f l) as [ys'|]; [|discriminate].
    inversion H; subst. simpl. now rewrite (IH ys' eq_refl).
Qed.

Lemma preprocess_labels (self : Updater.MovieDataUpdater)
      (df : list (Z * Updater.raw_movie))
      (out : list (Z * Updater.tagged_movie)) :
  Updater.preprocess_data self df = Ok out ->
  map fst out = map fst (Updater.dropna df).
Proof.
  intros H.
  assert (Hrows : df <> []) by (intros ->; discriminate H).
  rewrite preprocess_data_columns in H by exact Hrows.
  unfold Updater.process_columns in H.
  destruct (traverse _ (Updater.dropna df)) as [g|] eqn:Hg in H;
    simpl in H; [|discriminate].
  destruct (traverse _ (Updater.dropna df)) as [kw|] eqn:Hkw in H;
    simpl in H; [|discriminate].
  destruct (traverse _ (Updater.dropna df)) as [c|] eqn:Hc in H;
    simpl in H; [|discriminate].
  destruct (traverse _ (Updater.dropna df)) as [cr|] eqn:Hcr in H;
    simpl in H; [|discriminate].
  inversion H; subst.
  apply assemble_labels;
    eauto using traverse_length.
Qed.

End Labels.

(** X16. Preprocessing does not renumber the rows. Starting from a frame
    labelled 0..n-1, the labels of the result are again the row positions
    when no row had a missing cell; but as soon as a row with a missing
    cell came before a complete one, they are not: labels and row
    positions of the processed frame then disagree. *)
Theorem preprocess_does_not_renumber :
  forall (self : Updater.MovieDataUpdater)
         (df : list (Z * Updater.raw_movie))
         (out : list (Z * Updater.tagged_movie)),
    Words.numbered df ->
    Updater.preprocess_data self df = Ok out ->
    ((forall r, In r df -> Updater.has_na (snd r) = false) ->
     Words.numbered out)
    /\
    (forall i j p q,
        nth_error df i = Some p -> nth_error df j = Some q -> i < j ->
        Updater.has_na (snd p) = true -> Updater.has_na (snd q) = false ->
        ~ Words.numbered out).
Proof.
  intros self df out Hnum Hout.
  pose proof (preprocess_labels self df Hout) as Hlab.
  assert (Hlen : length out = length (Updater.dropna df))
    by (rewrite <- (length_map fst out), Hlab; apply length_map).
  split.
  - intros Hfull.
    assert (Hkeep : Updater.dropna df = df).
    { unfold Updater.dropna. apply filter_keep_all.
      apply Forall_forall. intros r Hr. now rewrite (Hfull r Hr). }
    unfold Words.numbered. rewrite Hlab, Hlen, Hkeep. exact Hnum.
  - intros i j p q Hi Hj Hij Hp Hq Hnumbered.
    unfold Words.numbered in Hnumbered. rewrite Hlab, Hlen in Hnumbered.
    assert (negb (Updater.has_na (snd p)) = true).
    { apply (@filter_seq_prefix _ (fun r => negb (Updater.has_na r)) df 0
               Hnum Hnumbered i j p q Hi Hj Hij).
      now rewrite Hq. }
    rewrite Hp in H. discriminate.
Qed.

Lemma preprocess_does_not_renumber_witness :
  ~ Words.numbered
      [(1%Z, {| Updater.t_movie_id := Updater.PyInt 7;
                Updater.t_title := Updater.PyStr "Heat";
                Updater.t_tags := "action alpacino" |})].
Proof.
  apply (proj2 (@preprocess_does_not_renumber UpdaterSpec.identity_stemmer
                  [(0%Z, UpdaterSpec.action_movie Updater.PyNone);
                   (1%Z, UpdaterSpec.action_movie (Updater.PyStr ""))]
                  _ eq_refl eq_refl)
               0 1 _ _ eq_refl eq_refl).
  - lia.
  - reflexivity.
  - reflexivity.
Defined.

(** * Fetching from TMDb *)

Section RetryFacts.

Variable net : Tmdb.Net.
Variable url : Tmdb.request.
Variable max_retries : nat.

Lemma fetch_attempts_answer (n : nat) :
  forall (a : nat) (body : Tmdb.json),
    a + n = max_retries ->
    (Tmdb.fetch_attempts net url max_retries (seq a n) = Ok body <->
     (exists i,
         a <= i < a + n /\
         (forall j, a <= j < i -> net url j = Tmdb.Failed) /\
         net url i = Tmdb.Answer body)
     \/
     (body = Tmdb.JNull /\
      forall i, a <= i < a + n -> net url i = Tmdb.Failed)).
Proof.
  induction n as [|n IH]; intros a body Ha; simpl.
  - split.
    + intros H. inversion H. right. split; [reflexivity|]. intros i Hi. lia.
    + intros [[i [Hi _]]|[-> _]]; [lia|reflexivity].
  - destruct (net url a) as [|b|e] eqn:E.
    + destruct (Nat.ltb_spec a (max_retries - 1)) as [Hlt|Hge].
      * rewrite IH by lia. split.
        -- intros [[i [Hi [Hfail Hans]]]|[-> Hall]].
           ++ left. exists i. split; [lia|]. split; [|exact Hans].
              intros j Hj. destruct (Nat.eq_dec j a) as [->|]; [exact E|].
              apply Hfail. lia.
           ++ right. split; [reflexivity|]. intros i Hi.
              destruct (Nat.eq_dec i a) as [->|]; [exact E|].
              apply Hall. lia.
        -- intros [[i [Hi [Hfail Hans]]]|[-> Hall]].
           ++ left. exists i.
              assert (i <> a) by (intros ->; rewrite E in Hans; discriminate).
              split; [lia|]. split; [|exact Hans].
              intros j Hj. apply Hfail. lia.
           ++ right. split; [reflexivity|]. intros i Hi. apply Hall. lia.
      * assert (n = 0) by lia. subst n. split.
        -- intros H. inversion H. right. split; [reflexivity|].
           intros i Hi. assert (i = a) by lia. now subst.
        -- intros [[i [Hi [_ Hans]]]|[-> _]]; [|reflexivity].
           assert (i = a) by lia. subst i. rewrite E in Hans. discriminate.
    + split.
      * intros H. inversion H; subst. left. exists a.
        split; [lia|]. split; [|exact E]. intros j Hj. lia.
      * intros [[i [Hi [Hfail Hans]]]|[_ Hall]].
        -- destruct (Nat.eq_dec i a) as [->|Hne].
           ++ rewrite E in Hans. now inversion Hans.
           ++ rewrite Hfail in E by lia. discriminate.
        -- rewrite Hall in E by lia. discriminate.
    + split; [discriminate|].
      intros [[i [Hi [Hfail Hans]]]|[_ Hall]].
      * destruct (Nat.eq_dec i a) as [->|Hne].
        -- rewrite E in Hans. discriminate.
        -- rewrite Hfail in E by lia. discriminate.
      * rewrite Hall in E by lia. discriminate.
Qed.

Lemma fetch_attempts_total (n : nat) :
  forall a : nat,
    (forall i e, a <= i < a + n -> net url i <> Tmdb.Fault e) ->
    exists body, Tmdb.fetch_attempts net url max_retries (seq a n) = Ok body.
Proof.
  induction n as [|n IH]; intros a H; simpl; [eauto|].
  destruct (net url a) as [|b|e] eqn:E.
  - destruct (a <? max_retries - 1); [|eauto].
    apply IH. intros i e Hi. apply H. lia.
  - eauto.
  - exfalso. apply (H a e); [lia|exact E].
Qed.

Lemma fetch_attempts_ext (net' : Tmdb.Net) (n : nat) :
  forall a : nat,
    (forall i, a <= i < a + n -> net url i = net' url i) ->
    Tmdb.fetch_attempts net url max_retries (seq a n)
    = Tmdb.fetch_attempts net' url max_retries (seq a n).
Proof.
  induction n as [|n IH]; intros a H; simpl; [reflexivity|].
  rewrite <- (H a) by lia.
  destruct (net url a); try reflexivity.
  destruct (a <? max_retries - 1); [|reflexivity].
  apply IH. intros i Hi. apply H. lia.
Qed.

End RetryFacts.

(** X17. [fetch_with_retry] returns the body of the first reply that is
    not a request failure among its [max_retries] attempts, and [None]
    when all of them fail (in particular when [max_retries] is 0); it
    returns nothing else. *)
Theorem fetch_with_retry_answer :
  forall (net : Tmdb.Net) (url : Tmdb.request) (max_retries : nat)
         (body : Tmdb.json),
    Tmdb.fetch_with_retry net url max_retries = Ok body <->
    (exists i,
        i < max_retries /\
        (forall j, j < i -> net url j = Tmdb.Failed) /\
        net url i = Tmdb.Answer body)
    \/
    (body = Tmdb.JNull /\
     forall i, i < max_retries -> net url i = Tmdb.Failed).
Proof.
  intros net url max_retries body. unfold Tmdb.fetch_with_retry.
  rewrite (fetch_attempts_answer net url (max_retries := max_retries)
             max_retries 0 body eq_refl).
  split.
  - intros [[i [Hi [Hfail Hans]]]|[-> Hall]].
    + left. exists i. split; [lia|]. split; [|exact Hans].
      intros j Hj. apply Hfail. lia.
    + right. split; [reflexivity|]. intros i Hi. apply Hall. lia.
  - intros [[i [Hi [Hfail Hans]]]|[-> Hall]].
    + left. exists i. split; [lia|]. split; [|exact Hans].
      intros j Hj. apply Hfail. lia.
    + right. split; [reflexivity|]. intros i Hi. apply Hall. lia.
Qed.

(** X18. [fetch_with_retry] makes at most [max_retries] requests: what a
    later attempt would be answered has no influence on its result. *)
Theorem fetch_with_retry_bounded :
  forall (net net' : Tmdb.Net) (url : Tmdb.request) (max_retries : nat),
    (forall i, i < max_retries -> net url i = net' url i) ->
    Tmdb.fetch_with_retry net url max_retries
    = Tmdb.fetch_with_retry net' url max_retries.
Proof.
  intros net net' url max_retries H. unfold Tmdb.fetch_with_retry.
  apply fetch_attempts_ext. intros i Hi. apply H. lia.
Qed.

Lemma fetch_with_retry_bounded_witness :
  Tmdb.fetch_with_retry (fun _ _ => Tmdb.Failed) (Tmdb.Popular 1) 5
  = Tmdb.fetch_with_retry
      (fun _ i => if i <? 5 then Tmdb.Failed else Tmdb.Answer (Tmdb.JNum 1))
      (Tmdb.Popular 1) 5.
Proof.
  apply fetch_with_retry_bounded.
  intros i Hi. apply Nat.ltb_lt in Hi. now rewrite Hi.
Defined.

Section DetailsFacts.

Variable net : Tmdb.Net.

Lemma fetch_gives_up (url : Tmdb.request) (n : nat) :
  (forall i, i < n -> net url i = Tmdb.Failed) ->
  Tmdb.fetch_with_retry net url n = Ok Tmdb.JNull.
Proof.
  intros H. unfold Tmdb.fetch_with_retry.
  apply (fetch_attempts_answer net url (max_retries := n) n 0 Tmdb.JNull
           eq_refl).
  right. split; [reflexivity|]. intros i Hi. apply H. lia.
Qed.

Lemma fetch_never_faults (url : Tmdb.request) (n : nat) :
  (forall i e, i < n -> net url i <> Tmdb.Fault e) ->
  exists body, Tmdb.fetch_with_retry net url n = Ok body.
Proof.
  intros H. unfold Tmdb.fetch_with_retry.
  apply fetch_attempts_total. intros i e Hi. apply H. lia.
Qed.

(** What a returned record is made of. *)
Lemma fetch_movie_details_some (id : Tmdb.json) (m : Tmdb.movie) :
  Tmdb.fetch_movie_details net id = Ok (Some m) ->
  exists details credits cast_list top_cast crew_list genre_list,
    Tmdb.fetch_with_retry net (Tmdb.Details id) 5 = Ok details /\
    Tmdb.fetch_with_retry net (Tmdb.Credits id) 5 = Ok credits /\
    Tmdb.fetch_keywords net id = Ok (Tmdb.keywords m) /\
    Tmdb.movie_id m = id /\
    Tmdb.get details "title" (Tmdb.JStr "") = Ok (Tmdb.title m) /\
    Tmdb.get details "overview" (Tmdb.JStr "") = Ok (Tmdb.overview m) /\
    Tmdb.get details "genres" (Tmdb.JArr []) = Ok genre_list /\
    Tmdb.names_of genre_list = Ok (Tmdb.genres m) /\
    Tmdb.get credits "cast" (Tmdb.JArr []) = Ok cast_list /\
    Tmdb.first_three cast_list = Ok top_cast /\
    Tmdb.names_of top_cast = Ok (Tmdb.cast m) /\
    Tmdb.get credits "crew" (Tmdb.JArr []) = Ok crew_list /\
    Tmdb.directors_of crew_list = Ok (Tmdb.crew m).
Proof.
  unfold Tmdb.fetch_movie_details. intros H.
  destruct (Tmdb.fetch_with_retry net (Tmdb.Details id) 5) as [details|];
    simpl in H; [|discriminate].
  destruct (Tmdb.truthy details); simpl in H; [|discriminate].
  destruct (Tmdb.fetch_with_retry net (Tmdb.Credits id) 5) as [credits|];
    simpl in H; [|discriminate].
  destruct (Tmdb.truthy credits); simpl in H; [|discriminate].
  destruct (Tmdb.fetch_keywords net id) as [kws|]; simpl in H;
    [|discriminate].
  destruct (Tmdb.get details "title" _) as [t|] eqn:Et; simpl in H;
    [|discriminate].
  destruct (Tmdb.get details "overview" _) as [o|] eqn:Eo; simpl in H;
    [|discriminate].
  destruct (Tmdb.get details "genres" _) as [gl|] eqn:Eg; simpl in H;
    [|discriminate].
  destruct (Tmdb.names_of gl) as [gn|] eqn:Egn; simpl in H; [|discriminate].
  destruct (Tmdb.get credits "cast" _) as [cl|] eqn:Ec; simpl in H;
    [|discriminate].
  destruct (Tmdb.first_three cl) as [tc|] eqn:Etc; simpl in H;
    [|discriminate].
  destruct (Tmdb.names_of tc) as [cn|] eqn:Ecn; simpl in H; [|discriminate].
  destruct (Tmdb.get credits "crew" _) as [crl|] eqn:Ecr; simpl in H;
    [|discriminate].
  destruct (Tmdb.directors_of crl) as [dn|] eqn:Edn; simpl in H;
    [|discriminate].
  inversion H; subst. simpl.
  exists details, credits, cl, tc, crl, gl. repeat split; assumption.
Qed.

Lemma chars_prefix_length (n : nat) :
  forall s, length (Tmdb.chars (Tmdb.prefix n s)) <= n.
Proof.
  induction n as [|n IH]; intros [|c s]; simpl; try lia.
  specialize (IH s). lia.
Qed.

Lemma iterate_first_three (x y : Tmdb.json) (items : list Tmdb.json) :
  Tmdb.first_three x = Ok y -> Tmdb.iterate y = Ok items ->
  length items <= 3.
Proof.
  unfold Tmdb.first_three. intros H Hi.
  destruct x as [| | |s|l|]; try discriminate; injection H as <-;
    unfold Tmdb.iterate in Hi; injection Hi as <-.
  - exact (chars_prefix_length 3 s).
  - exact (firstn_le_length 3 l).
Qed.

Lemma directors_among_spec (items : list Tmdb.json) :
  forall names,
    Tmdb.directors_among items = Ok names ->
    Forall (fun name =>
              exists c, In c items /\
                        Tmdb.get c "job" Tmdb.JNull = Ok (Tmdb.JStr "Director")
                        /\ Tmdb.subscript c "name" = Ok name) names.
Proof.
  induction items as [|c items IH]; simpl; intros names H.
  - inversion H. constructor.
  - destruct (Tmdb.get c "job" Tmdb.JNull) as [job|] eqn:Ej; simpl in H;
      [|discriminate].
    destruct (Tmdb.is_str "Director" job) eqn:Ed.
    + destruct (Tmdb.subscript c "name") as [name|] eqn:En; simpl in H;
        [|discriminate].
      destruct (Tmdb.directors_among items) as [others|]; simpl in H;
        [|discriminate].
      inversion H; subst. constructor.
      * exists c. split; [now left|]. split; [|exact En].
        destruct job; try discriminate. simpl in Ed.
        apply String.eqb_eq in Ed. now subst.
      * eapply Forall_impl; [|apply IH; reflexivity].
        intros nm [c' [Hin Hrest]]. exists c'. split; [now right|exact Hrest].
    + eapply Forall_impl; [|apply IH; exact H].
      intros nm [c' [Hin Hrest]]. exists c'. split; [now right|exact Hrest].
Qed.

End DetailsFacts.

(** X19. A movie whose details cannot be fetched is skipped, and so is
    one whose credits cannot be fetched (five failed attempts each),
    whatever the details request was answered and after however many
    attempts: as long as the details request raises nothing but request
    failures, [fetch_movie_details] returns [None] and raises nothing. *)
Theorem fetch_movie_details_skips :
  forall (net : Tmdb.Net) (id : Tmdb.json),
    (forall i, i < 5 -> net (Tmdb.Details id) i = Tmdb.Failed) \/
    ((forall i e, i < 5 -> net (Tmdb.Details id) i <> Tmdb.Fault e) /\
     forall i, i < 5 -> net (Tmdb.Credits id) i = Tmdb.Failed) ->
    Tmdb.fetch_movie_details net id = Ok None.
Proof.
  intros net id [Hd|[Hd Hc]]; unfold Tmdb.fetch_movie_details.
  - now rewrite (@fetch_gives_up net (Tmdb.Details id) 5 Hd).
  - destruct (@fetch_never_faults net (Tmdb.Details id) 5 Hd)
      as [details ->].
    simpl. destruct (Tmdb.truthy details); [|reflexivity]. simpl.
    now rewrite (@fetch_gives_up net (Tmdb.Credits id) 5 Hc).
Qed.

Lemma fetch_movie_details_skips_witness :
  Tmdb.fetch_movie_details
    (fun url i =>
       match url, i with
       | Tmdb.Details _, S _ => Tmdb.Answer TmdbSamples.matrix_details
       | _, _ => Tmdb.Failed
       end)
    (Tmdb.JNum 603)
  = Ok None.
Proof.
  apply fetch_movie_details_skips. right. split.
  - intros [|i] e _; discriminate.
  - reflexivity.
Defined.

(** X20. Keywords are optional: when the keyword request fails five
    times, a movie that is returned is returned with an empty keyword
    list. *)
Theorem keywords_degrade_to_empty :
  forall (net : Tmdb.Net) (id : Tmdb.json) (m : Tmdb.movie),
    (forall i, i < 5 -> net (Tmdb.Keywords id) i = Tmdb.Failed) ->
    Tmdb.fetch_movie_details net id = Ok (Some m) ->
    Tmdb.keywords m = [].
Proof.
  intros net id m Hk H.
  destruct (@fetch_movie_details_some net id m H)
    as [details [credits [cl [tc [crl [gl [_ [_ [Hkw _]]]]]]]]].
  unfold Tmdb.fetch_keywords in Hkw.
  rewrite (@fetch_gives_up net (Tmdb.Keywords id) 5 Hk) in Hkw.
  simpl in Hkw. now inversion Hkw.
Qed.

(** X21. The shape of a fetched record: it keeps the identifier it was
    asked for, lists at most three cast names, and every crew name it
    lists is the name of a crew entry whose job is "Director". *)
Theorem fetched_record_shape :
  forall (net : Tmdb.Net) (id : Tmdb.json) (m : Tmdb.movie),
    Tmdb.fetch_movie_details net id = Ok (Some m) ->
    Tmdb.movie_id m = id /\
    length (Tmdb.cast m) <= 3 /\
    exists credits crew_list entries,
      Tmdb.fetch_with_retry net (Tmdb.Credits id) 5 = Ok credits /\
      Tmdb.get credits "crew" (Tmdb.JArr []) = Ok crew_list /\
      Tmdb.iterate crew_list = Ok entries /\
      Forall (fun name =>
                exists c,
                  In c entries /\
                  Tmdb.get c "job" Tmdb.JNull = Ok (Tmdb.JStr "Director") /\
                  Tmdb.subscript c "name" = Ok name)
             (Tmdb.crew m).
Proof.
  intros net id m H.
  destruct (@fetch_movie_details_some net id m H)
    as [details [credits [cl [tc [crl [gl
         [_ [Hcredits [_ [Hid [_ [_ [_ [_ [_ [Htc [Hcast [Hcrew Hdir]]]]]]]]]]]]]]]]]].
  split; [exact Hid|]. split.
  - unfold Tmdb.names_of in Hcast.
    destruct (Tmdb.iterate tc) as [items|] eqn:Ei; simpl in Hcast;
      [|discriminate].
    rewrite (@traverse_length _ _ _ _ _ Hcast).
    exact (@iterate_first_three cl tc items Htc Ei).
  - unfold Tmdb.directors_of in Hdir.
    destruct (Tmdb.iterate crl) as [entries|] eqn:Ei; simpl in Hdir;
      [|discriminate].
    exists credits, crl, entries. repeat split; try assumption.
    now apply directors_among_spec.
Qed.

Lemma keywords_degrade_to_empty_witness :
  exists m,
    Tmdb.fetch_movie_details TmdbSamples.keywordless (Tmdb.JNum 603)
      = Ok (Some m) /\
    Tmdb.keywords m = [].
Proof.
  eexists. split; [reflexivity|].
  eapply (@keywords_degrade_to_empty TmdbSamples.keywordless (Tmdb.JNum 603));
    [reflexivity|reflexivity].
Defined.

Lemma fetched_record_shape_witness :
  exists m,
    Tmdb.fetch_movie_details TmdbSamples.keywordless (Tmdb.JNum 603)
      = Ok (Some m) /\
    length (Tmdb.cast m) <= 3.
Proof.
  eexists. split; [reflexivity|].
  apply (@fetched_record_shape TmdbSamples.keywordless (Tmdb.JNum 603) _
           eq_refl).
Defined.

Lemma bind_id (A : Type) (c : result A) : (x <- c ;; Ok x) = c.
Proof. now destruct c. Qed.

(** X22. The fetching loops skip what cannot be fetched and go on: a page
    whose request fails five times contributes nothing, and so does a
    listed movie for which [fetch_movie_details] returns [None]; the
    remaining pages and movies are fetched as if it had not been there. *)
Theorem unavailable_is_skipped :
  forall (net : Tmdb.Net),
    (forall page rest,
        (forall i, i < 5 -> net (Tmdb.Popular page) i = Tmdb.Failed) ->
        Tmdb.fetch_pages net (page :: rest) = Tmdb.fetch_pages net rest) /\
    (forall entry id rest,
        Tmdb.subscript entry "id" = Ok id ->
        Tmdb.fetch_movie_details net id = Ok None ->
        Tmdb.fetch_listed net (entry :: rest) = Tmdb.fetch_listed net rest).
Proof.
  intros net. split.
  - intros page rest H. simpl. unfold Tmdb.fetch_page.
    rewrite (@fetch_gives_up net (Tmdb.Popular page) 5 H). simpl.
    apply bind_id.
  - intros entry id rest Hid Hd. simpl. rewrite Hid. simpl. rewrite Hd.
    simpl. apply bind_id.
Qed.

Lemma unavailable_is_skipped_witness :
  Tmdb.fetch_pages TmdbSamples.patchy [2; 3]
    = Tmdb.fetch_pages TmdbSamples.patchy [3] /\
  Tmdb.fetch_listed TmdbSamples.patchy
    [Tmdb.JObj [("id"%string, Tmdb.JNum 7)]; Tmdb.JObj [("id"%string, Tmdb.JNum 603)]]
    = Tmdb.fetch_listed TmdbSamples.patchy [Tmdb.JObj [("id"%string, Tmdb.JNum 603)]].
Proof.
  split.
  - apply (proj1 (unavailable_is_skipped TmdbSamples.patchy)). reflexivity.
  - apply (proj2 (unavailable_is_skipped TmdbSamples.patchy)) with
      (id := Tmdb.JNum 7); reflexivity.
Defined.

Lemma get_lookup (fields : list (string * Tmdb.json)) (key : string)
      (default v : Tmdb.json) :
  Tmdb.get (Tmdb.JObj fields) key default = Ok v ->
  v = match Tmdb.lookup key fields with Some x => x | None => default end.
Proof.
  simpl. destruct (Tmdb.lookup key fields); intros H; now inversion H.
Qed.

Lemma row_of_overview (m : Tmdb.movie) (r : Updater.raw_movie) :
  Tmdb.row_of m = Some r ->
  Tmdb.cell (Tmdb.overview m) = Some (Updater.overview r).
Proof.
  unfold Tmdb.row_of. intros H.
  destruct (Tmdb.cell (Tmdb.movie_id m)); [|discriminate].
  destruct (Tmdb.cell (Tmdb.title m)); [|discriminate].
  destruct (Tmdb.cell (Tmdb.overview m)); [|discriminate].
  destruct (Tmdb.cell (Tmdb.JArr (Tmdb.genres m))); [|discriminate].
  destruct (Tmdb.cell (Tmdb.JArr (Tmdb.keywords m))); [|discriminate].
  destruct (Tmdb.cell (Tmdb.JArr (Tmdb.cast m))); [|discriminate].
  destruct (Tmdb.cell (Tmdb.JArr (Tmdb.crew m))); [|discriminate].
  now inversion H.
Qed.

(** X23. From TMDb to the tags: a movie whose details carry an explicit
    null overview is fetched, becomes a row and is then dropped by
    [preprocess_data]; a movie whose details have no overview key at all
    gets the empty string instead and is not dropped for it. *)
Theorem null_overview_fetched_then_dropped :
  forall (net : Tmdb.Net) (id : Tmdb.json) (fields : list (string * Tmdb.json))
         (m : Tmdb.movie) (r : Updater.raw_movie),
    Tmdb.fetch_with_retry net (Tmdb.Details id) 5 = Ok (Tmdb.JObj fields) ->
    Tmdb.fetch_movie_details net id = Ok (Some m) ->
    Tmdb.row_of m = Some r ->
    (Tmdb.lookup "overview" fields = Some Tmdb.JNull ->
     forall self label,
       Updater.preprocess_data self [(label, r)] = Ok []) /\
    (Tmdb.lookup "overview" fields = None ->
     Updater.overview r = Updater.PyStr "").
Proof.
  intros net id fields m r Hdetails Hm Hr.
  destruct (@fetch_movie_details_some net id m Hm)
    as [details [credits [cl [tc [crl [gl [Hd [_ [_ [_ [_ [Ho _]]]]]]]]]]]].
  rewrite Hdetails in Hd. injection Hd as <-.
  apply get_lookup in Ho. apply row_of_overview in Hr.
  split; intros Hl; rewrite Hl in Ho; rewrite Ho in Hr; simpl in Hr;
    injection Hr as Hr.
  - intros self label.
    assert (Hna : Updater.has_na r = true).
    { unfold Updater.has_na. rewrite <- Hr. simpl.
      now rewrite orb_true_r. }
    unfold Updater.preprocess_data, Updater.process_columns, Updater.dropna.
    simpl. now rewrite Hna.
  - now symmetry.
Qed.

Lemma null_overview_fetched_then_dropped_witness :
  exists m r,
    Tmdb.fetch_movie_details TmdbSamples.untold (Tmdb.JNum 9) = Ok (Some m) /\
    Tmdb.row_of m = Some r /\
    forall self label, Updater.preprocess_data self [(label, r)] = Ok [].
Proof.
  eexists. eexists. split; [reflexivity|]. split; [reflexivity|].
  apply (@null_overview_fetched_then_dropped TmdbSamples.untold (Tmdb.JNum 9)
           _ _ _ eq_refl eq_refl eq_refl).
  reflexivity.
Defined.

(** * Properties of the release manager *)

Section UploadFacts.
Variable w : Release.World.

Lemma listed_In (filename : string) (existing : list string) :
  Release.listed filename existing = true -> In filename existing.
Proof.
  unfold Release.listed. intros H. apply existsb_exists in H.
  destruct H as [x [Hx E]]. apply String.eqb_eq in E. now subst.
Qed.

Lemma upload_each_actions (existing : list string) (files : list string) :
  forall i a,
    In a (fst (Release.upload_each w existing i files)) ->
    match a with
    | Release.Created _ _ => False
    | Release.Deleted n =>
        In n existing /\
        exists p, In p files /\ Release.path_exists w p = true /\
                  Release.basename w p = n
    | Release.Uploaded p l _ =>
        In p files /\ Release.path_exists w p = true /\
        l = Release.basename w p
    end.
Proof.
  induction files as [|f files IH]; intros i a; simpl; [tauto|].
  destruct (Release.path_exists w f) eqn:Ex; simpl.
  - specialize (IH (S i) a).
    destruct (Release.upload_each w existing (S i) files) as [later outcome].
    assert (Hlater : In a later ->
      match a with
      | Release.Created _ _ => False
      | Release.Deleted n =>
          In n existing /\
          exists p, (f = p \/ In p files) /\ Release.path_exists w p = true /\
                    Release.basename w p = n
      | Release.Uploaded p l _ =>
          (f = p \/ In p files) /\ Release.path_exists w p = true /\
          l = Release.basename w p
      end).
    { intros H. apply IH in H. destruct a; try tauto.
      destruct H as [H1 [p [H2 H3]]]. split; [exact H1|]. exists p. tauto. }
    destruct (Release.listed (Release.basename w f) existing) eqn:El.
    + apply listed_In in El.
      destruct (Release.delete_asset w i (Release.basename w f)); simpl;
        intros [<-|H]; try (split; [exact El|exists f; tauto]);
        try contradiction.
      destruct H as [<-|H]; [tauto|now apply Hlater].
    + simpl. intros [<-|H]; [tauto|now apply Hlater].
  - intros H. apply IH in H. destruct a; try tauto.
    destruct H as [H1 [p [H2 H3]]]. split; [exact H1|]. exists p. tauto.
Qed.

Lemma upload_each_without_delete_errors (existing : list string)
      (files : list string) :
  (forall i n, Release.delete_asset w i n = None) ->
  forall i,
    snd (Release.upload_each w existing i files) = Ok tt /\
    Release.uploads (fst (Release.upload_each w existing i files))
    = filter (Release.path_exists w) files.
Proof.
  intros Hd. induction files as [|f files IH]; intros i; simpl; [tauto|].
  destruct (Release.path_exists w f) eqn:Ex; simpl; [|apply IH].
  destruct (IH (S i)) as [H1 H2].
  destruct (Release.upload_each w existing (S i) files) as [later outcome].
  simpl in H1, H2.
  destruct (Release.listed (Release.basename w f) existing).
  - rewrite Hd. simpl. now rewrite H2.
  - simpl. now rewrite H2.
Qed.

Lemma upload_each_delete_then_upload (existing : list string)
      (files : list string) :
  forall i before n after,
    fst (Release.upload_each w existing i files)
    = before ++ Release.Deleted n :: after ->
    (after = [] /\
     exists e, snd (Release.upload_each w existing i files) = Raise e) \/
    (exists p ok rest,
        after = Release.Uploaded p n ok :: rest /\
        Release.basename w p = n).
Proof.
  induction files as [|f files IH]; intros i before n after; simpl.
  - destruct before; discriminate.
  - destruct (Release.path_exists w f); simpl; [|apply IH].
    specialize (IH (S i)).
    destruct (Release.upload_each w existing (S i) files) as [later outcome].
    simpl in IH.
    destruct (Release.listed (Release.basename w f) existing).
    + destruct (Release.delete_asset w i (Release.basename w f)) as [e|];
        simpl; intros H.
      * destruct before as [|b before]; simpl in H.
        -- injection H as <- <-. left. split; [reflexivity|now exists e].
        -- injection H as _ H. destruct before; discriminate.
      * destruct before as [|b before]; simpl in H.
        -- injection H as <- <-. right. now eexists _, _, _.
        -- injection H as _ H. destruct before as [|b' before]; simpl in H;
             [discriminate|].
           injection H as _ H. now apply IH in H.
    + simpl. intros H. destruct before as [|b before]; simpl in H;
        [discriminate|].
      injection H as _ H. now apply IH in H.
Qed.

End UploadFacts.

(** X24. [upload_files] acts only on what it was given: every upload is
    of a listed file that exists locally, labelled with its base name;
    every deletion is of an asset the release had when the call began,
    named as such a file; a release is created only under the tag asked
    for, and only when looking it up failed. *)
Theorem upload_acts_on_local_files :
  forall (w : Release.World) (tag : string) (files : list string)
         (a : Release.action),
    In a (fst (Release.upload_files w tag files)) ->
    match a with
    | Release.Created t _ =>
        t = tag /\ exists e, Release.get_release w tag = Raise e
    | Release.Deleted n =>
        (exists rel assets,
            snd (Release.create_or_get_release w tag) = Ok rel /\
            Release.get_assets rel = Ok assets /\
            In n (map Release.name assets)) /\
        exists p, In p files /\ Release.path_exists w p = true /\
                  Release.basename w p = n
    | Release.Uploaded p l _ =>
        In p files /\ Release.path_exists w p = true /\
        l = Release.basename w p
    end.
Proof.
  intros w tag files a. unfold Release.upload_files.
  assert (Hmade : forall made r,
             Release.create_or_get_release w tag = (made, r) ->
             In a made ->
             match a with
             | Release.Created t _ =>
                 t = tag /\ exists e, Release.get_release w tag = Raise e
             | _ => False
             end).
  { unfold Release.create_or_get_release. intros made r.
    destruct (Release.get_release w tag) as [found|e].
    - intros H. injection H as <- _. simpl. tauto.
    - destruct (Release.create_git_release w tag _).
      + intros H. injection H as <- _. simpl. intros [<-|[]].
        split; [reflexivity|now exists e].
      + intros H. injection H as <- _. simpl. tauto. }
  destruct (Release.create_or_get_release w tag) as [made [rel|e]] eqn:Ec.
  - specialize (Hmade made (Ok rel) eq_refl).
    destruct (Release.get_assets rel) as [assets|e] eqn:Ea.
    + pose proof (@upload_each_actions w (map Release.name assets) files 0 a)
        as Hdone.
      destruct (Release.upload_each w (map Release.name assets) 0 files)
        as [done outcome].
      simpl in *. intros H. apply in_app_or in H. destruct H as [H|H].
      * apply Hmade in H. destruct a; tauto.
      * apply Hdone in H. destruct a; try tauto.
        destruct H as [H1 H2]. split; [|exact H2].
        exists rel, assets. tauto.
    + simpl. intros H. apply Hmade in H. destruct a; tauto.
  - simpl. intros H. apply (Hmade made (Raise e) eq_refl) in H.
    destruct a; tauto.
Qed.

Lemma upload_acts_on_local_files_witness :
  In "data/movies.index"%string ReleaseSamples.model_files /\
  Release.path_exists ReleaseSamples.steady "data/movies.index" = true /\
  "movies.index"%string
  = Release.basename ReleaseSamples.steady "data/movies.index".
Proof.
  apply (@upload_acts_on_local_files ReleaseSamples.steady "v1.0.0"
           ReleaseSamples.model_files
           (Release.Uploaded "data/movies.index" "movies.index" true)).
  vm_compute. tauto.
Defined.

(** X25. A failed upload stops nothing: once the release and its assets
    are obtained and no deletion raises, [upload_files] returns normally
    and has called [upload_asset] exactly once for each listed file that
    exists locally, in order, whatever those calls answered. *)
Theorem upload_failures_are_swallowed :
  forall (w : Release.World) (tag : string) (files : list string)
         (rel : Release.release) (assets : list Release.asset),
    snd (Release.create_or_get_release w tag) = Ok rel ->
    Release.get_assets rel = Ok assets ->
    (forall i n, Release.delete_asset w i n = None) ->
    snd (Release.upload_files w tag files) = Ok tt /\
    Release.uploads (fst (Release.upload_files w tag files))
    = filter (Release.path_exists w) files.
Proof.
  intros w tag files rel assets Hc Ha Hd. unfold Release.upload_files.
  assert (Hmade : Release.uploads (fst (Release.create_or_get_release w tag))
                  = []).
  { unfold Release.create_or_get_release.
    destruct (Release.get_release w tag); [reflexivity|].
    now destruct (Release.create_git_release w tag _). }
  destruct (Release.create_or_get_release w tag) as [made r].
  simpl in Hc, Hmade. subst r. rewrite Ha.
  destruct (@upload_each_without_delete_errors w (map Release.name assets)
              files Hd 0) as [H1 H2].
  destruct (Release.upload_each w (map Release.name assets) 0 files)
    as [done outcome].
  simpl in *. split; [exact H1|].
  rewrite <- H2. clear - Hmade.
  induction made as [|m made IH]; [reflexivity|].
  destruct m; simpl in *; try discriminate; now apply IH.
Qed.

Lemma upload_failures_are_swallowed_witness :
  snd (Release.upload_files ReleaseSamples.flaky "v1.0.0"
         ReleaseSamples.model_files) = Ok tt /\
  Release.uploads (fst (Release.upload_files ReleaseSamples.flaky "v1.0.0"
                          ReleaseSamples.model_files))
  = ["data/movies_dict.pkl"; "data/movies.index"]%string.
Proof.
  apply (@upload_failures_are_swallowed ReleaseSamples.flaky "v1.0.0"
           ReleaseSamples.model_files ReleaseSamples.v1
           ReleaseSamples.model_assets); reflexivity.
Defined.

(** X26. Replacing an asset is delete first, upload second: in what
    [upload_files] does, a deletion is either the last thing done, the
    call ending with the exception the deletion raised, or is followed at
    once by the upload of a file of that name, which may then fail. *)
Theorem replace_is_delete_then_upload :
  forall (w : Release.World) (tag : string) (files : list string)
         (before : list Release.action) (n : string)
         (after : list Release.action),
    fst (Release.upload_files w tag files)
    = before ++ Release.Deleted n :: after ->
    (after = [] /\
     exists e, snd (Release.upload_files w tag files) = Raise e) \/
    (exists p ok rest,
        after = Release.Uploaded p n ok :: rest /\
        Release.basename w p = n).
Proof.
  intros w tag files before n after. unfold Release.upload_files.
  assert (Hmade : forall b, fst (Release.create_or_get_release w tag)
                            <> b ++ Release.Deleted n :: after).
  { unfold Release.create_or_get_release. intros b.
    destruct (Release.get_release w tag); simpl;
      [now destruct b|].
    destruct (Release.create_git_release w tag _); simpl;
      [|now destruct b].
    destruct b as [|x b]; simpl; [discriminate|].
    intros H. injection H as _ H. now destruct b. }
  assert (Hshape : fst (Release.create_or_get_release w tag) = [] \/
                   exists c, fst (Release.create_or_get_release w tag) = [c]
                             /\ forall m, c <> Release.Deleted m).
  { unfold Release.create_or_get_release.
    destruct (Release.get_release w tag); simpl; [now left|].
    destruct (Release.create_git_release w tag _); simpl; [|now left].
    right. eexists. split; [reflexivity|discriminate]. }
  destruct (Release.create_or_get_release w tag) as [made [rel|e]].
  - simpl in Hmade, Hshape.
    destruct (Release.get_assets rel) as [assets|e].
    + pose proof (@upload_each_delete_then_upload w (map Release.name assets)
                    files 0) as Hdone.
      destruct (Release.upload_each w (map Release.name assets) 0 files)
        as [done outcome].
      simpl in *. intros H.
      destruct Hshape as [->|[c [-> Hc]]]; simpl in H.
      * now apply Hdone in H.
      * destruct before as [|b before]; simpl in H.
        -- injection H as H _. now apply Hc in H.
        -- injection H as _ H. now apply Hdone in H.
    + simpl. intros H. now apply Hmade in H.
  - simpl. intros H. now apply Hmade in H.
Qed.

Lemma replace_is_delete_then_upload_witness :
  exists p ok rest,
    [Release.Uploaded "data/movies_dict.pkl" "movies_dict.pkl" false;
     Release.Deleted "movies.index";
     Release.Uploaded "data/movies.index" "movies.index" false]%string
    = Release.Uploaded p "movies_dict.pkl" ok :: rest /\
    Release.basename ReleaseSamples.flaky p = "movies_dict.pkl"%string.
Proof.
  destruct (@replace_is_delete_then_upload ReleaseSamples.flaky "v1.0.0"
              ReleaseSamples.model_files [] "movies_dict.pkl"
              [Release.Uploaded "data/movies_dict.pkl" "movies_dict.pkl" false;
               Release.Deleted "movies.index";
               Release.Uploaded "data/movies.index" "movies.index" false]
              eq_refl) as [[H _]|H].
  - discriminate H.
  - exact H.
Defined.

Section DownloadFacts.
Variable w : Release.World.
Variable dir : string.

Lemma read_write_same (p c : string) (fs : Release.disk) :
  Release.read p (Release.write p c fs) = Some c.
Proof. simpl. now rewrite String.eqb_refl. Qed.

Lemma read_write_other (p q c : string) (fs : Release.disk) :
  q <> p -> Release.read p (Release.write q c fs) = Release.read p fs.
Proof.
  intros H. simpl. destruct (String.eqb q p) eqn:E; [|reflexivity].
  apply String.eqb_eq in E. contradiction.
Qed.

(** Files that are no asset's target are left as they were. *)
Lemma download_each_frame (assets : list Release.asset) (p : string) :
  (forall a, In a assets -> Release.target w dir a <> p) ->
  forall i fs,
    Release.read p (snd (Release.download_each w dir i assets fs))
    = Release.read p fs.
Proof.
  induction assets as [|a assets IH]; intros H i fs; simpl; [reflexivity|].
  destruct (Release.requests_get w i (Release.browser_download_url a));
    [|reflexivity].
  destruct (Release.open_wb w i _); [reflexivity|].
  rewrite IH by (intros a' Ha'; apply H; now right).
  apply read_write_other. apply H. now left.
Qed.

Lemma download_each_ok (assets : list Release.asset) :
  forall i fs,
    fst (Release.download_each w dir i assets fs) = Ok tt <->
    (forall j a, nth_error assets j = Some a ->
                 Release.downloadable w dir (i + j) a).
Proof.
  induction assets as [|a assets IH]; intros i fs; simpl.
  - split; [|reflexivity]. intros _ [|j] b H; discriminate.
  - split.
    + intros H [|j] b Hb; simpl in Hb.
      * injection Hb as <-. rewrite Nat.add_0_r. unfold Release.downloadable.
        destruct (Release.requests_get w i (Release.browser_download_url a))
          as [content|]; [|discriminate].
        unfold Release.target.
        destruct (Release.open_wb w i _); [discriminate|].
        split; [now exists content|reflexivity].
      * destruct (Release.requests_get w i (Release.browser_download_url a))
          as [content|]; [|discriminate].
        destruct (Release.open_wb w i _); [discriminate|].
        apply IH with (j := j) (a := b) in H; [|exact Hb].
        now replace (i + S j) with (S i + j) by lia.
    + intros H. destruct (H 0 a eq_refl) as [[content Hc] Ho].
      rewrite Nat.add_0_r in Hc, Ho. unfold Release.target in Ho.
      rewrite Hc, Ho. apply IH. intros j b Hb.
      specialize (H (S j) b Hb).
      now replace (i + S j) with (S i + j) in H by lia.
Qed.

(** An asset reached by the loop is on the disk afterwards, whatever
    happens to the assets after it. *)
Lemma download_each_written (assets : list Release.asset) :
  NoDup (map (Release.target w dir) assets) ->
  forall i j fs a content,
    nth_error assets j = Some a ->
    (forall j' a', j' <= j -> nth_error assets j' = Some a' ->
                   Release.downloadable w dir (i + j') a') ->
    Release.requests_get w (i + j) (Release.browser_download_url a)
    = Ok content ->
    Release.read (Release.target w dir a)
                 (snd (Release.download_each w dir i assets fs))
    = Some content.
Proof.
  induction assets as [|b assets IH]; intros Hnd i j fs a content Ha Hok Hc.
  - destruct j; discriminate.
  - simpl in Hnd. inversion Hnd as [|x l Hnotin Hnd']; subst.
    destruct (Hok 0 b (Nat.le_0_l j) eq_refl) as [[c0 Hc0] Ho0].
    rewrite Nat.add_0_r in Hc0, Ho0. unfold Release.target in Ho0.
    simpl. rewrite Hc0, Ho0.
    destruct j as [|j]; simpl in Ha.
    + injection Ha as <-. rewrite Nat.add_0_r in Hc.
      rewrite Hc in Hc0. injection Hc0 as <-.
      rewrite download_each_frame.
      * apply read_write_same.
      * intros a' Ha' E. apply Hnotin. rewrite <- E. now apply in_map.
    + apply IH with (j := j); try assumption.
      * intros j' a' Hj' Ha'. replace (S i + j') with (i + S j') by lia.
        apply Hok; [lia|exact Ha'].
      * now replace (S i + j) with (i + S j) by lia.
Qed.

Lemma download_each_fails (assets : list Release.asset) :
  forall i k fs bad e,
    nth_error assets k = Some bad ->
    Release.requests_get w (i + k) (Release.browser_download_url bad)
    = Raise e ->
    exists e', fst (Release.download_each w dir i assets fs) = Raise e'.
Proof.
  induction assets as [|b assets IH]; intros i k fs bad e Hk He.
  - destruct k; discriminate.
  - simpl. destruct k as [|k]; simpl in Hk.
    + injection Hk as <-. rewrite Nat.add_0_r in He. rewrite He.
      now exists e.
    + destruct (Release.requests_get w i (Release.browser_download_url b));
        [|now eexists].
      destruct (Release.open_wb w i _); [now eexists|].
      apply IH with (k := k) (bad := bad) (e := e); [exact Hk|].
      now replace (S i + k) with (i + S k) by lia.
Qed.

End DownloadFacts.

(** X27. Once the destination directory is made, [download_files] raises
    nothing and answers [True] or [False]; it answers [True] exactly when
    the release is found, its assets can be listed and are not none, and
    every one of them can be fetched and its file opened for writing. *)
Theorem download_files_true_iff :
  forall (w : Release.World) (tag dir : string) (fs : Release.disk),
    Release.makedirs w dir = None ->
    exists b,
      fst (Release.download_files w tag dir fs) = Ok b /\
      (b = true <->
       exists rel assets,
         Release.get_release w tag = Ok rel /\
         Release.get_assets rel = Ok assets /\
         assets <> [] /\
         forall i a, nth_error assets i = Some a ->
                     Release.downloadable w dir i a).
Proof.
  intros w tag dir fs Hm. unfold Release.download_files. rewrite Hm.
  destruct (Release.get_release w tag) as [rel|e].
  - destruct (Release.get_assets rel) as [assets|e] eqn:Ea.
    + destruct assets as [|a assets].
      * exists false. split; [reflexivity|]. split; [discriminate|].
        intros [rel' [assets' [Hr [Ha' [Hne _]]]]].
        injection Hr as <-. rewrite Ea in Ha'. injection Ha' as <-.
        now destruct Hne.
      * pose proof (download_each_ok w dir (a :: assets) 0 fs) as Hok.
        destruct (Release.download_each w dir 0 (a :: assets) fs)
          as [[[]|e] fs'].
        -- exists true. split; [reflexivity|]. split; [|reflexivity].
           intros _. exists rel, (a :: assets).
           repeat split; try assumption; try discriminate;
             now apply (proj1 Hok eq_refl).
        -- exists false. split; [reflexivity|]. split; [discriminate|].
           intros [rel' [assets' [Hr [Ha' [_ Hall]]]]].
           injection Hr as <-. rewrite Ea in Ha'. injection Ha' as <-.
           apply (proj2 Hok) in Hall. discriminate Hall.
    + exists false. split; [reflexivity|]. split; [discriminate|].
      intros [rel' [assets' [Hr [Ha' _]]]].
      injection Hr as <-. rewrite Ea in Ha'. discriminate.
  - exists false. split; [reflexivity|]. split; [discriminate|].
    intros [rel' [assets' [Hr _]]]. discriminate.
Qed.

Lemma download_files_true_iff_witness :
  exists b,
    fst (Release.download_files ReleaseSamples.steady "v1.0.0" "data" [])
    = Ok b /\
    (b = true <->
     exists rel assets,
       Release.get_release ReleaseSamples.steady "v1.0.0" = Ok rel /\
       Release.get_assets rel = Ok assets /\
       assets <> [] /\
       forall i a, nth_error assets i = Some a ->
                   Release.downloadable ReleaseSamples.steady "data" i a).
Proof.
  apply (@download_files_true_iff ReleaseSamples.steady "v1.0.0" "data" []).
  reflexivity.
Defined.

(** X28. What a successful download leaves on the disk: when
    [download_files] answers [True] and the assets go to distinct paths,
    the file of every asset holds the bytes that were fetched for it. *)
Theorem downloaded_files_hold_the_assets :
  forall (w : Release.World) (tag dir : string) (fs : Release.disk)
         (rel : Release.release) (assets : list Release.asset),
    Release.get_release w tag = Ok rel ->
    Release.get_assets rel = Ok assets ->
    NoDup (map (Release.target w dir) assets) ->
    fst (Release.download_files w tag dir fs) = Ok true ->
    forall i a,
      nth_error assets i = Some a ->
      exists content,
        Release.requests_get w i (Release.browser_download_url a)
        = Ok content /\
        Release.read (Release.target w dir a)
                     (snd (Release.download_files w tag dir fs))
        = Some content.
Proof.
  intros w tag dir fs rel assets Hr Ha Hnd. unfold Release.download_files.
  destruct (Release.makedirs w dir); [discriminate|].
  rewrite Hr, Ha. destruct assets as [|a0 assets]; [discriminate|].
  pose proof (download_each_ok w dir (a0 :: assets) 0 fs) as Hok.
  pose proof (@download_each_written w dir (a0 :: assets) Hnd 0) as Hw.
  destruct (Release.download_each w dir 0 (a0 :: assets) fs)
    as [[[]|e] fs'] eqn:Ed; [|discriminate].
  intros _ i a Hi. simpl in Hok.
  pose proof (proj1 Hok eq_refl) as Hall.
  destruct (Hall i a Hi) as [[content Hc] _].
  exists content. split; [exact Hc|].
  specialize (Hw i fs a content Hi). rewrite Ed in Hw. simpl in Hw.
  apply Hw; [|exact Hc].
  intros j' a' _ Ha'. now apply Hall.
Qed.

Lemma downloaded_files_hold_the_assets_witness :
  exists content,
    Release.requests_get ReleaseSamples.steady 1
      "https://example.org/movies.index" = Ok content /\
    Release.read "data/movies.index"
      (snd (Release.download_files ReleaseSamples.steady "v1.0.0" "data" []))
    = Some content.
Proof.
  apply (@downloaded_files_hold_the_assets ReleaseSamples.steady "v1.0.0"
           "data" [] ReleaseSamples.v1 ReleaseSamples.model_assets
           eq_refl eq_refl) with
    (i := 1)
    (a := {| Release.name := "movies.index";
             Release.browser_download_url :=
               "https://example.org/movies.index" |});
    try reflexivity.
  repeat constructor; simpl; intuition discriminate.
Defined.

(** X29. A download is not all or nothing: when fetching asset [k] fails
    after the assets before it went through, [download_files] answers
    [False], yet the files of those earlier assets are on the disk with
    the bytes fetched for them. *)
Theorem failed_download_keeps_earlier_files :
  forall (w : Release.World) (tag dir : string) (fs : Release.disk)
         (rel : Release.release) (assets : list Release.asset)
         (k : nat) (bad : Release.asset) (e : exn),
    Release.makedirs w dir = None ->
    Release.get_release w tag = Ok rel ->
    Release.get_assets rel = Ok assets ->
    NoDup (map (Release.target w dir) assets) ->
    nth_error assets k = Some bad ->
    Release.requests_get w k (Release.browser_download_url bad) = Raise e ->
    (forall j a, j < k -> nth_error assets j = Some a ->
                 Release.downloadable w dir j a) ->
    fst (Release.download_files w tag dir fs) = Ok false /\
    forall j a content,
      j < k -> nth_error assets j = Some a ->
      Release.requests_get w j (Release.browser_download_url a)
      = Ok content ->
      Release.read (Release.target w dir a)
                   (snd (Release.download_files w tag dir fs))
      = Some content.
Proof.
  intros w tag dir fs rel assets k bad e Hm Hr Ha Hnd Hk He Hbefore.
  unfold Release.download_files. rewrite Hm, Hr, Ha.
  destruct assets as [|a0 assets]; [destruct k; discriminate|].
  destruct (@download_each_fails w dir (a0 :: assets) 0 k fs bad e Hk He)
    as [e' Hfail].
  pose proof (@download_each_written w dir (a0 :: assets) Hnd 0) as Hw.
  destruct (Release.download_each w dir 0 (a0 :: assets) fs)
    as [[[]|e''] fs'] eqn:Ed; [discriminate|].
  split; [reflexivity|].
  intros j a content Hj Hja Hc.
  specialize (Hw j fs a content Hja). rewrite Ed in Hw. simpl in Hw.
  apply Hw; [|exact Hc].
  intros j' a' Hj' Ha'. apply Hbefore; [lia|exact Ha'].
Qed.

Lemma failed_download_keeps_earlier_files_witness :
  fst (Release.download_files ReleaseSamples.flaky "v1.0.0" "data" [])
  = Ok false /\
  Release.read "data/movies_dict.pkl"
    (snd (Release.download_files ReleaseSamples.flaky "v1.0.0" "data" []))
  = Some "pickled"%string.
Proof.
  destruct (@failed_download_keeps_earlier_files ReleaseSamples.flaky
              "v1.0.0" "data" [] ReleaseSamples.v1
              ReleaseSamples.model_assets 1
              {| Release.name := "movies.index";
                 Release.browser_download_url :=
                   "https://example.org/movies.index" |}
              RuntimeError eq_refl eq_refl eq_refl) as [H1 H2].
  - repeat constructor; simpl; intuition discriminate.
  - reflexivity.
  - reflexivity.
  - intros [|j] a Hj Ha; [|lia]. injection Ha as <-.
    split; [now exists "pickled"%string|reflexivity].
  - split; [exact H1|].
    apply (H2 0
             {| Release.name := "movies_dict.pkl";
                Release.browser_download_url :=
                  "https://example.org/movies_dict.pkl" |});
      [lia|reflexivity|reflexivity].
Defined.

(** X30. [download_files] touches no file but the assets' own: whatever
    happens, a path that no asset of the release is written to reads
    after the call as it did before. *)
Theorem download_leaves_other_files :
  forall (w : Release.World) (tag dir : string) (fs : Release.disk)
         (p : string),
    (forall rel assets a,
        Release.get_release w tag = Ok rel ->
        Release.get_assets rel = Ok assets ->
        In a assets -> Release.target w dir a <> p) ->
    Release.read p (snd (Release.download_files w tag dir fs))
    = Release.read p fs.
Proof.
  intros w tag dir fs p H. unfold Release.download_files.
  destruct (Release.makedirs w dir); [reflexivity|].
  destruct (Release.get_release w tag) as [rel|e]; [|reflexivity].
  destruct (Release.get_assets rel) as [assets|e] eqn:Ea; [|reflexivity].
  destruct assets as [|a0 assets]; [reflexivity|].
  pose proof (@download_each_frame w dir (a0 :: assets) p
                (fun a Hin => H rel (a0 :: assets) a eq_refl Ea Hin) 0 fs)
    as Hf.
  destruct (Release.download_each w dir 0 (a0 :: assets) fs)
    as [[[]|e] fs']; exact Hf.
Qed.

Lemma download_leaves_other_files_witness :
  Release.read "data/vectorizer.pkl"
    (snd (Release.download_files ReleaseSamples.steady "v1.0.0" "data"
            [("data/vectorizer.pkl", "old")]%string))
  = Some "old"%string.
Proof.
  rewrite (@download_leaves_other_files ReleaseSamples.steady "v1.0.0" "data"
             [("data/vectorizer.pkl", "old")]%string "data/vectorizer.pkl").
  - reflexivity.
  - intros rel assets a Hr Ha Hin.
    injection Hr as <-. injection Ha as <-.
    destruct Hin as [<-|[<-|[]]]; discriminate.
Defined.
